(** * A relay worker: HTTP and WebSocket forwarding

    Shallow embedding of [_worker.js]: the front controller [fetch], the
    preflight handler [handleCORS], the WebSocket handler
    [handleWebSocket] with its pump [connectWebSocket], the HTTP handler
    [handleHTTP], and the two canned responses [createInfoResponse] and
    [handleError].

    Platform objects ([URL], [Headers], [Request], [Response],
    [WebSocket]) are records; the platform's URL parser, its outbound
    [fetch], its WebSocket constructor and its clock are parameters of
    the section that holds the handlers. *)

From Stdlib Require Import String Ascii ZArith Lia.
From stdpp Require Import gmap strings list fin_maps pretty.

Set Warnings "-register-all,-clear-no-such-hyp".
Local Open Scope string_scope.

(** ** Strings, as the worker uses them *)

Module JsString.

(** ASCII lower-casing of one character: header names are byte strings and
    the platform compares them after this normalisation. *)
Definition lower_ascii (c : ascii) : ascii :=
  let n := nat_of_ascii c in
  if (65 <=? n)%nat && (n <=? 90)%nat then ascii_of_nat (n + 32) else c.

Fixpoint toLowerCase (s : string) : string :=
  match s with
  | EmptyString => EmptyString
  | String c r => String (lower_ascii c) (toLowerCase r)
  end.

(** [s.startsWith(p)] *)
Definition startsWith (s p : string) : bool := String.prefix p s.

(** [s.substring(1)]: everything after the first character. *)
Definition substring1 (s : string) : string :=
  match s with
  | EmptyString => EmptyString
  | String _ r => r
  end.

(** The one-character string holding a double quote. *)
Definition dquote : string := String (ascii_of_nat 34) EmptyString.

(** Truthiness of a value that is a string or [null]. *)
Definition truthy (v : option string) : bool :=
  match v with
  | Some EmptyString => false
  | Some _ => true
  | None => false
  end.

End JsString.
Import JsString.

(** ** JSON values, for the bodies built with [JSON.stringify] *)

Inductive JSON :=
| JNull
| JBool (b : bool)
| JNum (n : Z)
| JStr (s : string)
| JArr (items : list JSON)
| JObj (fields : list (string * JSON)).

(** Field access on an object value. *)
Fixpoint JSON_assoc (k : string) (fields : list (string * JSON)) : option JSON :=
  match fields with
  | [] => None
  | (k', v) :: rest => if String.eqb k k' then Some v else JSON_assoc k rest
  end.

Definition JSON_field (k : string) (j : JSON) : option JSON :=
  match j with
  | JObj fields => JSON_assoc k fields
  | _ => None
  end.

(** ** Header sets

    A [Headers] object is a map from lower-cased names to values; every
    operation normalises the name it is given. *)

Abbreviation Headers := (gmap string string).

Definition Headers_get (h : Headers) (name : string) : option string :=
  h !! toLowerCase name.

Definition Headers_has (h : Headers) (name : string) : bool :=
  bool_decide (is_Some (h !! toLowerCase name)).

Definition Headers_set (h : Headers) (name value : string) : Headers :=
  <[toLowerCase name := value]> h.

Definition Headers_delete (h : Headers) (name : string) : Headers :=
  delete (toLowerCase name) h.

(** [append] joins a repeated name with a comma, as the platform does. *)
Definition Headers_append (h : Headers) (name value : string) : Headers :=
  match h !! toLowerCase name with
  | Some old => <[toLowerCase name := old +:+ ", " +:+ value]> h
  | None => <[toLowerCase name := value]> h
  end.

(** [new Headers(init)] for an object literal or a list of pairs. *)
Definition Headers_of_entries (init : list (string * string)) : Headers :=
  foldl (fun h kv => Headers_append h kv.1 kv.2) ∅ init.

(** ** URLs *)

Record URL := mkURL {
  protocol : string;      (* with the trailing colon, e.g. "https:" *)
  username : string;
  password : string;
  host : string;          (* hostname, and ":port" when there is one *)
  pathname : string;
  search : string;        (* empty, or "?" followed by the query *)
  hash : string;
  searchParams : list (string * string)  (* decoded query pairs, in order *)
}.

(** [url.searchParams.get(name)]: the first value under [name], or null. *)
Fixpoint URLSearchParams_get (params : list (string * string)) (name : string)
  : option string :=
  match params with
  | [] => None
  | (k, v) :: rest =>
      if String.eqb k name then Some v else URLSearchParams_get rest name
  end.

(** [url.protocol = p], used by the worker between http(s) and ws(s) only
    (all four are special schemes, so the platform accepts the change). *)
Definition URL_set_protocol (u : URL) (p : string) : URL :=
  {| protocol := p; username := username u; password := password u;
     host := host u; pathname := pathname u; search := search u;
     hash := hash u; searchParams := searchParams u |}.

Definition URL_userinfo (u : URL) : string :=
  if String.eqb (username u) "" && String.eqb (password u) "" then ""
  else if String.eqb (password u) "" then username u +:+ "@"
  else username u +:+ ":" +:+ password u +:+ "@".

(** [url.toString()], the serialised href. *)
Definition URL_toString (u : URL) : string :=
  protocol u +:+ "//" +:+ URL_userinfo u +:+ host u +:+ pathname u
    +:+ search u +:+ hash u.

(** ** Configuration *)

Record CorsConfig := mkCors {
  enabled : bool;
  allowOrigin : string;
  allowMethods : string;
  allowHeaders : string;
  maxAge : Z
}.

Record Config := mkConfig {
  DEFAULT_TARGET : option string;
  DEBUG : bool;
  MAX_BODY_SIZE : Z;
  TIMEOUT : Z;
  CORS : CorsConfig;
  SECURITY_HEADERS : list (string * string);
  REMOVE_HEADERS : list string
}.

Definition CONFIG : Config := {|
  DEFAULT_TARGET := None;
  DEBUG := false;
  MAX_BODY_SIZE := 10 * 1024 * 1024;
  TIMEOUT := 30000;
  CORS := {|
    enabled := true;
    allowOrigin := "*";
    allowMethods := "GET, POST, PUT, DELETE, OPTIONS, HEAD, PATCH";
    allowHeaders := "*";
    maxAge := 86400
  |};
  SECURITY_HEADERS := [
    ("X-Content-Type-Options", "nosniff");
    ("X-Frame-Options", "SAMEORIGIN");
    ("X-XSS-Protection", "1; mode=block");
    ("Referrer-Policy", "strict-origin-when-cross-origin")
  ];
  REMOVE_HEADERS := [
    "cf-ray";
    "cf-connecting-ip";
    "cf-visitor";
    "cf-request-id";
    "x-forwarded-for";
    "x-forwarded-proto";
    "x-real-ip"
  ]
|}.

(** ** Exceptions and promises *)

Record JsError := mkError { message : string }.

Inductive Completion (A : Type) :=
| Normal (a : A)
| Throw (e : JsError).
Arguments Normal {A} a.
Arguments Throw {A} e.

(** A promise, seen from its awaiter: it settles [ms] milliseconds after
    the call that made it, or it stays pending for ever. *)
Inductive Promise (A : Type) :=
| Fulfilled (ms : Z) (v : A)
| Rejected (ms : Z) (e : JsError)
| Pending.
Arguments Fulfilled {A} ms v.
Arguments Rejected {A} ms e.
Arguments Pending {A}.

(** ** Requests and responses *)

Inductive Body :=
| BodyNull
| BodyText (s : string)
| BodyJson (j : JSON)            (* [JSON.stringify(j, null, 2)] *)
| BodyStream (bytes : list Byte.byte).

Record Request := mkRequest {
  req_method : string;
  req_url : string;
  req_headers : Headers;
  req_body : Body;
  req_redirect : string
}.

Record Response := mkResponse {
  res_status : nat;
  res_statusText : string;
  res_headers : Headers;
  res_body : Body;
  res_webSocket : bool     (* true when the reply carries the client end *)
}.

(** [new Response(body, {status, statusText, headers})]: a textual body
    gets a default content type unless the headers already name one. *)
Definition new_Response (b : Body) (st : nat) (stText : string) (h : Headers)
  : Response :=
  let h' :=
    match b with
    | BodyText _ | BodyJson _ =>
        if Headers_has h "Content-Type" then h
        else Headers_set h "Content-Type" "text/plain;charset=UTF-8"
    | _ => h
    end in
  {| res_status := st; res_statusText := stText; res_headers := h';
     res_body := b; res_webSocket := false |}.

(** ** WebSockets *)

Inductive ReadyState := CONNECTING | OPEN | CLOSING | CLOSED.

#[global] Instance ReadyState_eq_dec : EqDecision ReadyState.
Proof. solve_decision. Defined.

(** [event.data]: a string for a text frame, bytes for a binary frame. *)
Inductive Payload :=
| TextData (s : string)
| BinaryData (bytes : list Byte.byte).

Record WebSocket := mkWebSocket {
  readyState : ReadyState;
  sent : list Payload          (* what [send] has accepted, oldest first *)
}.

(** [ws.send(data)]: throws while connecting, queues when open, and
    discards the data once the socket is closing or closed. *)
Definition WebSocket_send (ws : WebSocket) (data : Payload)
  : Completion WebSocket :=
  match readyState ws with
  | CONNECTING => Throw {| message := "InvalidStateError" |}
  | OPEN => Normal {| readyState := OPEN; sent := sent ws ++ [data] |}
  | CLOSING | CLOSED => Normal ws
  end.

(** [ws.close()]: starts the closing handshake unless already under way. *)
Definition WebSocket_close (ws : WebSocket) : WebSocket :=
  match readyState ws with
  | CONNECTING | OPEN => {| readyState := CLOSING; sent := sent ws |}
  | CLOSING | CLOSED => ws
  end.

(** The two sockets the listeners of [connectWebSocket] close over. *)
Record Pair := mkPair {
  serverWs : WebSocket;
  targetWs : WebSocket
}.

(** What [connectWebSocket] leaves behind: a wired pair, or the server
    socket alone when the constructor threw. *)
Inductive Session :=
| Wired (p : Pair)
| DialThrew (server : WebSocket).

Inductive Side := Server | Target.

Definition other (s : Side) : Side :=
  match s with Server => Target | Target => Server end.

Definition socket (s : Side) (p : Pair) : WebSocket :=
  match s with Server => serverWs p | Target => targetWs p end.

Definition with_socket (s : Side) (ws : WebSocket) (p : Pair) : Pair :=
  match s with
  | Server => {| serverWs := ws; targetWs := targetWs p |}
  | Target => {| serverWs := serverWs p; targetWs := ws |}
  end.

(** *** The six listeners installed by [connectWebSocket] *)

(** [serverWs.addEventListener('message', ...)] *)
Definition server_on_message (data : Payload) (p : Pair) : Completion Pair :=
  if decide (readyState (targetWs p) = OPEN) then
    match WebSocket_send (targetWs p) data with
    | Normal t => Normal {| serverWs := serverWs p; targetWs := t |}
    | Throw e => Throw e
    end
  else Normal p.

(** [targetWs.addEventListener('message', ...)] *)
Definition target_on_message (data : Payload) (p : Pair) : Completion Pair :=
  if decide (readyState (serverWs p) = OPEN) then
    match WebSocket_send (serverWs p) data with
    | Normal s => Normal {| serverWs := s; targetWs := targetWs p |}
    | Throw e => Throw e
    end
  else Normal p.

(** [serverWs.addEventListener('close', ...)] *)
Definition server_on_close (p : Pair) : Completion Pair :=
  if decide (readyState (targetWs p) = OPEN) then
    Normal {| serverWs := serverWs p; targetWs := WebSocket_close (targetWs p) |}
  else Normal p.

(** [targetWs.addEventListener('close', ...)] *)
Definition target_on_close (p : Pair) : Completion Pair :=
  if decide (readyState (serverWs p) = OPEN) then
    Normal {| serverWs := WebSocket_close (serverWs p); targetWs := targetWs p |}
  else Normal p.

(** [serverWs.addEventListener('error', ...)]; the console line is not
    modelled. *)
Definition server_on_error (p : Pair) : Completion Pair :=
  if decide (readyState (targetWs p) = OPEN) then
    Normal {| serverWs := serverWs p; targetWs := WebSocket_close (targetWs p) |}
  else Normal p.

(** [targetWs.addEventListener('error', ...)] *)
Definition target_on_error (p : Pair) : Completion Pair :=
  if decide (readyState (serverWs p) = OPEN) then
    Normal {| serverWs := WebSocket_close (serverWs p); targetWs := targetWs p |}
  else Normal p.

(** *** Event delivery

    The platform first updates the socket the event is about, then runs
    the listener registered for it: an open event moves a connecting
    socket to [OPEN], a close event leaves the socket [CLOSED], message
    and error events leave its state alone. *)

Inductive Event :=
| EvOpen (on : Side)
| EvMessage (on : Side) (data : Payload)
| EvClose (on : Side)
| EvError (on : Side).

Definition mark_open (ws : WebSocket) : WebSocket :=
  match readyState ws with
  | CONNECTING => {| readyState := OPEN; sent := sent ws |}
  | _ => ws
  end.

Definition mark_closed (ws : WebSocket) : WebSocket :=
  {| readyState := CLOSED; sent := sent ws |}.

Definition deliver (ev : Event) (p : Pair) : Completion Pair :=
  match ev with
  | EvOpen s => Normal (with_socket s (mark_open (socket s p)) p)
  | EvMessage Server data => server_on_message data p
  | EvMessage Target data => target_on_message data p
  | EvClose Server => server_on_close (with_socket Server (mark_closed (serverWs p)) p)
  | EvClose Target => target_on_close (with_socket Target (mark_closed (targetWs p)) p)
  | EvError Server => server_on_error p
  | EvError Target => target_on_error p
  end.

(** A run of events; an exception escaping a listener ends the run. *)
Fixpoint run (evs : list Event) (p : Pair) : Completion Pair :=
  match evs with
  | [] => Normal p
  | ev :: rest =>
      match deliver ev p with
      | Normal p' => run rest p'
      | Throw e => Throw e
      end
  end.

(** ** The worker *)

(** What one call of the worker leaves behind: the reply it promises, the
    outbound HTTP calls it issued, and the socket it dialled (with the URL
    it dialled) when a relay session was started. *)
Record Outcome := mkOutcome {
  reply : Promise Response;
  fetches : list Request;
  dialled : option (string * Session)
}.

Section Worker.

(** [new URL(s)]: the parsed URL, or the [TypeError] it throws. *)
Variable new_URL : string -> Completion URL.

(** The platform's [fetch(request)]. *)
Variable global_fetch : Request -> Promise Response.

(** [new WebSocket(url)] either throws or yields a connecting socket;
    this gives the exception, if any. *)
Variable dial_exception : string -> option JsError.

(** [new Date().toISOString()] *)
Variable now_iso : string.

Variable cfg : Config.

Definition new_WebSocket (targetUrl : string) : Completion WebSocket :=
  match dial_exception targetUrl with
  | Some e => Throw e
  | None => Normal {| readyState := CONNECTING; sent := [] |}
  end.

(** [handleCORS()] *)
Definition handleCORS : Response :=
  let headers := [
    ("Access-Control-Allow-Origin", allowOrigin (CORS cfg));
    ("Access-Control-Allow-Methods", allowMethods (CORS cfg));
    ("Access-Control-Allow-Headers", allowHeaders (CORS cfg));
    ("Access-Control-Max-Age", pretty (maxAge (CORS cfg)))
  ] in
  new_Response BodyNull 204 "" (Headers_of_entries headers).

(** [connectWebSocket(serverWs, targetUrl)]: on success the six listeners
    above are attached to the pair; when the constructor throws, the
    catch block closes the server socket. *)
Definition connectWebSocket (server : WebSocket) (targetUrl : string) : Session :=
  match new_WebSocket targetUrl with
  | Normal target => Wired {| serverWs := server; targetWs := target |}
  | Throw _ => DialThrew (WebSocket_close server)
  end.

(** [handleWebSocket(request, url)] *)
Definition handleWebSocket (request : Request) (url : URL)
  : Response * option (string * Session) :=
  let targetParam := URLSearchParams_get (searchParams url) "target" in
  if negb (truthy targetParam) then
    (new_Response (BodyText "Missing target parameter for WebSocket") 400 "" ∅,
     None)
  else
    match new_URL (default "" targetParam) with
    | Throw error =>
        (new_Response (BodyText ("WebSocket error: " +:+ message error)) 400 "" ∅,
         None)
    | Normal targetUrl =>
        let targetUrl :=
          if String.eqb (protocol targetUrl) "http:" then
            URL_set_protocol targetUrl "ws:"
          else if String.eqb (protocol targetUrl) "https:" then
            URL_set_protocol targetUrl "wss:"
          else targetUrl in
        (* [server.accept()] *)
        let server := {| readyState := OPEN; sent := [] |} in
        let session := connectWebSocket server (URL_toString targetUrl) in
        ({| res_status := 101; res_statusText := ""; res_headers := ∅;
            res_body := BodyNull; res_webSocket := true |},
         Some (URL_toString targetUrl, session))
    end.

(** [createInfoResponse()] *)
Definition createInfoResponse : Response :=
  let info := JObj [
    ("name", JStr "The Most Advanced No-Ping Cloudflare Worker");
    ("version", JStr "1.0.0");
    ("description",
      JStr "Advanced proxy worker with WebSocket support and protocol obfuscation");
    ("usage", JObj [
      ("http", JObj [
        ("queryParam", JStr "/?target=https://example.com");
        ("pathParam", JStr "/https://example.com");
        ("description", JStr "Proxy HTTP/HTTPS requests to any target URL")
      ]);
      ("websocket", JObj [
        ("endpoint", JStr "/?target=wss://example.com/socket");
        ("description", JStr "Proxy WebSocket connections with Upgrade header")
      ])
    ]);
    ("features", JArr [
      JStr "HTTP/HTTPS proxying";
      JStr "WebSocket support";
      JStr "CORS handling";
      JStr "Header manipulation for stealth";
      JStr "Security headers injection";
      JStr "Protocol obfuscation";
      JStr "Connection optimization"
    ]);
    ("examples", JObj [
      ("httpProxy",
        JStr ("curl " +:+ dquote
              +:+ "https://worker.example.com/?target=https://api.github.com/users/github"
              +:+ dquote));
      ("websocketProxy",
        JStr "Connect with WebSocket client to: wss://worker.example.com/?target=wss://echo.websocket.org")
    ])
  ] in
  new_Response (BodyJson info) 200 ""
    (Headers_of_entries (("Content-Type", "application/json") :: SECURITY_HEADERS cfg)).

(** [handleError(error)] *)
Definition handleError (error : JsError) : Response :=
  let errorResponse := JObj [
    ("error", JBool true);
    ("message",
      JStr (if String.eqb (message error) "" then "Internal server error"
            else message error));
    ("timestamp", JStr now_iso)
  ] in
  new_Response (BodyJson errorResponse) 500 ""
    (Headers_of_entries (("Content-Type", "application/json") :: SECURITY_HEADERS cfg)).

(** The choice of target at the head of [handleHTTP]: [None] is the
    branch that returns [createInfoResponse()]. *)
Definition resolveTarget (url : URL) : option string :=
  let targetParam := URLSearchParams_get (searchParams url) "target" in
  let pathTarget := substring1 (pathname url) in
  if truthy targetParam then targetParam
  else if truthy (Some pathTarget) && startsWith pathTarget "http" then
    Some pathTarget
  else if truthy (DEFAULT_TARGET cfg) then
    Some (default "" (DEFAULT_TARGET cfg) +:+ pathname url +:+ search url)
  else None.

(** The header set of the outbound request. *)
Definition outboundHeaders (request : Request) (target : URL) : Headers :=
  let headers := req_headers request in
  let headers := foldl Headers_delete headers (REMOVE_HEADERS cfg) in
  let headers := Headers_set headers "Host" (host target) in
  Headers_delete headers "Origin".

(** The header set of the relayed response. *)
Definition relayedHeaders (h : Headers) : Headers :=
  let h :=
    if enabled (CORS cfg) then
      let h := Headers_set h "Access-Control-Allow-Origin" (allowOrigin (CORS cfg)) in
      let h := Headers_set h "Access-Control-Allow-Methods" (allowMethods (CORS cfg)) in
      Headers_set h "Access-Control-Allow-Headers" (allowHeaders (CORS cfg))
    else h in
  let h := foldl (fun h kv => Headers_set h kv.1 kv.2) h (SECURITY_HEADERS cfg) in
  foldl Headers_delete h (REMOVE_HEADERS cfg).

(** [handleHTTP(request, url)], with the outbound calls it issued.  The
    [Request] and [Response] constructors are taken not to throw. *)
Definition handleHTTP (request : Request) (url : URL)
  : Promise Response * list Request :=
  match resolveTarget url with
  | None => (Fulfilled 0 createInfoResponse, [])
  | Some targetUrl =>
      match new_URL targetUrl with
      | Throw error => (Fulfilled 0 (handleError error), [])
      | Normal target =>
          let modifiedRequest := {|
            req_method := req_method request;
            req_url := URL_toString target;
            req_headers := outboundHeaders request target;
            req_body := req_body request;
            req_redirect := "follow"
          |} in
          match global_fetch modifiedRequest with
          | Fulfilled ms response =>
              (* the body is the target's stream, so no content type is
                 defaulted by the constructor *)
              let modifiedResponse := {|
                res_status := res_status response;
                res_statusText := res_statusText response;
                res_headers := relayedHeaders (res_headers response);
                res_body := res_body response;
                res_webSocket := false
              |} in
              (Fulfilled ms modifiedResponse, [modifiedRequest])
          | Rejected ms error =>
              (Fulfilled ms (handleError error), [modifiedRequest])
          | Pending => (Pending, [modifiedRequest])
          end
      end
  end.

(** The [fetch(request, env, ctx)] entry point. *)
Definition fetch (request : Request) : Outcome :=
  if String.eqb (req_method request) "OPTIONS" then
    {| reply := Fulfilled 0 handleCORS; fetches := []; dialled := None |}
  else
    match new_URL (req_url request) with
    | Throw error =>
        {| reply := Fulfilled 0 (handleError error); fetches := [];
           dialled := None |}
    | Normal url =>
        if decide (Headers_get (req_headers request) "Upgrade" = Some "websocket")
        then
          let r := handleWebSocket request url in
          {| reply := Fulfilled 0 r.1; fetches := []; dialled := r.2 |}
        else
          let r := handleHTTP request url in
          match r.1 with
          | Rejected ms error =>
              {| reply := Fulfilled ms (handleError error); fetches := r.2;
                 dialled := None |}
          | settled =>
              {| reply := settled; fetches := r.2; dialled := None |}
          end
    end.

End Worker.

(** ** A concrete platform, for examples *)

Module Sample.

Definition target : URL := {|
  protocol := "https:"; username := ""; password := "";
  host := "example.test"; pathname := "/data"; search := ""; hash := "";
  searchParams := []
|}.

Definition plain_target : URL := {|
  protocol := "http:"; username := ""; password := "";
  host := "x.example"; pathname := "/y"; search := ""; hash := "";
  searchParams := []
|}.

Definition echo_target : URL := {|
  protocol := "wss:"; username := ""; password := "";
  host := "echo.example"; pathname := "/socket"; search := ""; hash := "";
  searchParams := []
|}.

(** The worker's own URL, with a given path and decoded query. *)
Definition worker_url (path query : string) (params : list (string * string))
  : URL := {|
  protocol := "https:"; username := ""; password := "";
  host := "worker.example"; pathname := path; search := query; hash := "";
  searchParams := params
|}.

Definition known_urls : list (string * URL) := [
  ("https://example.test/data", target);
  ("http://x.example/y", plain_target);
  ("wss://echo.example/socket", echo_target);
  ("https://worker.example/?target=https://example.test/data",
    worker_url "/" "?target=https://example.test/data"
      [("target", "https://example.test/data")]);
  ("https://worker.example/?target=not-a-url",
    worker_url "/" "?target=not-a-url" [("target", "not-a-url")]);
  ("https://worker.example/?target=",
    worker_url "/" "?target=" [("target", "")]);
  ("https://worker.example/https://example.test/data",
    worker_url "/https://example.test/data" "" []);
  ("https://worker.example/api?x=1", worker_url "/api" "?x=1" [("x", "1")]);
  ("https://worker.example/", worker_url "/" "" [])
].

Fixpoint find_url (s : string) (table : list (string * URL)) : option URL :=
  match table with
  | [] => None
  | (k, u) :: rest => if String.eqb k s then Some u else find_url s rest
  end.

(** A parser that knows the URLs above and rejects everything else. *)
Definition new_URL (s : string) : Completion URL :=
  match find_url s known_urls with
  | Some u => Normal u
  | None => Throw {| message := "Invalid URL: " +:+ s |}
  end.

Definition target_response : Response := {|
  res_status := 200; res_statusText := "OK";
  res_headers := Headers_of_entries [
    ("Content-Type", "text/plain");
    ("Access-Control-Allow-Origin", "https://elsewhere.example");
    ("CF-Ray", "abc123")
  ];
  res_body := BodyStream []; res_webSocket := false
|}.

(** A target that answers after 120 ms, one that answers after a minute,
    one that never answers, and one that refuses the connection. *)
Definition quick_fetch (r : Request) : Promise Response :=
  Fulfilled 120 target_response.

Definition slow_fetch (r : Request) : Promise Response :=
  Fulfilled 60000 target_response.

Definition silent_fetch (r : Request) : Promise Response := Pending.

Definition refused_fetch (r : Request) : Promise Response :=
  Rejected 15 {| message := "Network connection lost." |}.

Definition dial_ok (targetUrl : string) : option JsError := None.

Definition dial_refused (targetUrl : string) : option JsError :=
  Some {| message := "Invalid URL" |}.

Definition now_iso : string := "2024-01-01T00:00:00.000Z".

Definition get_request (u : string) (h : list (string * string)) : Request := {|
  req_method := "GET"; req_url := u; req_headers := Headers_of_entries h;
  req_body := BodyNull; req_redirect := "manual"
|}.

End Sample.

(** ** Vocabulary of the properties *)

(** A request the front controller sends to [handleWebSocket]. *)
Definition is_upgrade (new_URL : string -> Completion URL)
    (request : Request) (url : URL) : Prop :=
  req_method request <> "OPTIONS" /\
  new_URL (req_url request) = Normal url /\
  Headers_get (req_headers request) "Upgrade" = Some "websocket".

(** The first clause of C3 as the specification words it: a [target]
    query parameter that is present is the target used. *)
Definition present_query_parameter_is_used (cfg : Config) (url : URL) : Prop :=
  forall t,
    URLSearchParams_get (searchParams url) "target" = Some t ->
    resolveTarget cfg url = Some t.

(** The path test in the words of the specification: the stripped path
    begins with an HTTP(S) scheme literal. *)
Definition begins_with_scheme_literal (p : string) : bool :=
  startsWith p "http://" || startsWith p "https://".

(** The removal list does not ask for the header the relay must set. *)
Definition request_policy_consistent (cfg : Config) : Prop :=
  toLowerCase "Host" ∉ toLowerCase <$> REMOVE_HEADERS cfg.


(** A socket that has started or finished closing. *)
Definition closing_or_closed (ws : WebSocket) : Prop :=
  readyState ws = CLOSING \/ readyState ws = CLOSED.

(** The lower-cased names of the three CORS headers the relay sets. *)
Definition cors_names : list string :=
  toLowerCase <$> ["Access-Control-Allow-Origin";
                   "Access-Control-Allow-Methods";
                   "Access-Control-Allow-Headers"].

(** A request with its header set replaced. *)
Definition with_headers (request : Request) (h : Headers) : Request :=
  {| req_method := req_method request; req_url := req_url request;
     req_headers := h; req_body := req_body request;
     req_redirect := req_redirect request |}.

(** The request [handleHTTP] builds for a parsed target. *)
Definition modified_request (cfg : Config) (request : Request) (target : URL)
  : Request :=
  {| req_method := req_method request;
     req_url := URL_toString target;
     req_headers := outboundHeaders cfg request target;
     req_body := req_body request;
     req_redirect := "follow" |}.

(** The scheme rewriting at the head of [handleWebSocket]. *)
Definition dial_url (u : URL) : URL :=
  if String.eqb (protocol u) "http:" then URL_set_protocol u "ws:"
  else if String.eqb (protocol u) "https:" then URL_set_protocol u "wss:"
  else u.

(** The reply that carries the client end of an accepted pair. *)
Definition switching_protocols : Response :=
  {| res_status := 101; res_statusText := ""; res_headers := ∅;
     res_body := BodyNull; res_webSocket := true |}.

(** The server end of a pair, right after [server.accept()]. *)
Definition accepted : WebSocket := {| readyState := OPEN; sent := [] |}.

(** The lower-cased names of the headers the two canned replies are
    built with. *)
Definition canned_header_names (cfg : Config) : list string :=
  toLowerCase <$> ("Content-Type" :: (SECURITY_HEADERS cfg).*1).

(** Decide distinctness of concrete header names by evaluation. *)
Ltac names_distinct :=
  apply (bool_decide_unpack _); vm_compute; reflexivity.

(** * Properties *)

(** ** Strings and header sets *)

Lemma lower_ascii_idem c : lower_ascii (lower_ascii c) = lower_ascii c.
Proof.
  destruct c as [[] [] [] [] [] [] [] []]; vm_compute; reflexivity.
Qed.

Lemma toLowerCase_idem s : toLowerCase (toLowerCase s) = toLowerCase s.
Proof.
  induction s as [|c r IH]; simpl; [reflexivity|].
  now rewrite lower_ascii_idem, IH.
Qed.

Lemma truthy_intro s : s <> "" -> truthy (Some s) = true.
Proof. destruct s; [congruence | reflexivity]. Qed.

(** A name and its lower-case form denote the same header. *)
Lemma Headers_get_lower (h : Headers) name :
  Headers_get h (toLowerCase name) = Headers_get h name.
Proof. unfold Headers_get. now rewrite toLowerCase_idem. Qed.

Lemma Headers_has_get h name :
  Headers_has h name = false <-> Headers_get h name = None.
Proof.
  unfold Headers_has, Headers_get.
  rewrite bool_decide_eq_false, <- eq_None_not_Some. reflexivity.
Qed.

(** Looking up a key after a run of deletions. *)
Lemma lookup_foldl_delete (names : list string) (h : Headers) (k : string) :
  foldl Headers_delete h names !! k =
  if decide (k ∈ toLowerCase <$> names) then None else h !! k.
Proof.
  revert h. induction names as [|n names IH]; intros h.
  - reflexivity.
  - change (foldl Headers_delete h (n :: names))
      with (foldl Headers_delete (Headers_delete h n) names).
    rewrite IH, fmap_cons. unfold Headers_delete.
    repeat case_decide; try reflexivity.
    + set_solver.
    + apply elem_of_cons in H0 as [->|?]; [|contradiction].
      apply lookup_delete_eq.
    + apply lookup_delete_ne. set_solver.
Qed.

(** A run of [set] calls leaves the other keys alone... *)
Lemma lookup_foldl_set_other (l : list (string * string)) (h : Headers) (k : string) :
  k ∉ toLowerCase <$> l.*1 ->
  foldl (fun h kv => Headers_set h kv.1 kv.2) h l !! k = h !! k.
Proof.
  revert h. induction l as [|[n v] l IH]; intros h Hk; simpl; [reflexivity|].
  rewrite IH by set_solver.
  unfold Headers_set. simpl. apply lookup_insert_ne. set_solver.
Qed.


Lemma lookup_foldl_append_other (l : list (string * string)) (h : Headers) (k : string) :
  k ∉ toLowerCase <$> l.*1 ->
  foldl (fun h kv => Headers_append h kv.1 kv.2) h l !! k = h !! k.
Proof.
  revert h. induction l as [|[n v] l IH]; intros h Hk; simpl; [reflexivity|].
  rewrite IH by set_solver.
  unfold Headers_append. simpl.
  destruct (h !! toLowerCase n); apply lookup_insert_ne; set_solver.
Qed.

Lemma lookup_foldl_append_in (l : list (string * string)) (h : Headers) n v :
  NoDup (toLowerCase <$> l.*1) ->
  (forall k, k ∈ toLowerCase <$> l.*1 -> h !! k = None) ->
  (n, v) ∈ l ->
  foldl (fun h kv => Headers_append h kv.1 kv.2) h l !! toLowerCase n = Some v.
Proof.
  revert h. induction l as [|[n0 v0] l IH]; intros h Hnd Hfree Hin; simpl.
  - inversion Hin.
  - simpl in Hnd. apply NoDup_cons in Hnd as [Hfresh Hnd].
    apply elem_of_cons in Hin as [Heq|Hin].
    + inversion Heq; subst n0 v0.
      rewrite lookup_foldl_append_other by exact Hfresh.
      unfold Headers_append. simpl.
      rewrite (Hfree (toLowerCase n)) by set_solver.
      apply lookup_insert_eq.
    + apply IH; [assumption| |assumption].
      intros k Hk. unfold Headers_append. simpl.
      assert (toLowerCase n0 ≠ k) by (intros <-; contradiction).
      destruct (h !! toLowerCase n0); rewrite lookup_insert_ne by assumption;
        apply Hfree; set_solver.
Qed.

(** Reading back a header set built from pairs with distinct names. *)
Lemma Headers_of_entries_get (l : list (string * string)) n v :
  NoDup (toLowerCase <$> l.*1) ->
  (n, v) ∈ l ->
  Headers_get (Headers_of_entries l) n = Some v.
Proof.
  intros Hnd Hin. unfold Headers_get, Headers_of_entries.
  apply lookup_foldl_append_in; [assumption| |assumption].
  intros k _. apply lookup_empty.
Qed.

(** ** Preflight *)

(** The headers of the preflight reply. *)
Lemma handleCORS_headers cfg :
  let h := res_headers (handleCORS cfg) in
  Headers_get h "Access-Control-Allow-Origin" = Some (allowOrigin (CORS cfg)) /\
  Headers_get h "Access-Control-Allow-Methods" = Some (allowMethods (CORS cfg)) /\
  Headers_get h "Access-Control-Allow-Headers" = Some (allowHeaders (CORS cfg)) /\
  Headers_get h "Access-Control-Max-Age" = Some (pretty (maxAge (CORS cfg))).
Proof.
  unfold handleCORS, new_Response; cbn [res_headers].
  repeat split; (apply Headers_of_entries_get; [names_distinct | set_solver]).
Qed.

(** C9: a request with method OPTIONS, whatever its URL and headers and
    whatever the platform would answer, gets the preflight reply: status
    204 with the four configured CORS headers.  The request URL is not
    parsed, no target is looked for, no outbound HTTP call is issued and
    no socket is dialled. *)
Theorem options_is_answered_by_preflight
    new_URL global_fetch dial_exception now_iso cfg request :
  req_method request = "OPTIONS" ->
  fetch new_URL global_fetch dial_exception now_iso cfg request =
    {| reply := Fulfilled 0 (handleCORS cfg); fetches := []; dialled := None |}
  /\ res_status (handleCORS cfg) = 204
  /\ Headers_get (res_headers (handleCORS cfg)) "Access-Control-Allow-Origin"
       = Some (allowOrigin (CORS cfg))
  /\ Headers_get (res_headers (handleCORS cfg)) "Access-Control-Allow-Methods"
       = Some (allowMethods (CORS cfg))
  /\ Headers_get (res_headers (handleCORS cfg)) "Access-Control-Allow-Headers"
       = Some (allowHeaders (CORS cfg))
  /\ Headers_get (res_headers (handleCORS cfg)) "Access-Control-Max-Age"
       = Some (pretty (maxAge (CORS cfg))).
Proof.
  intros Hm. split.
  - unfold fetch. rewrite Hm. reflexivity.
  - split; [reflexivity | apply handleCORS_headers].
Qed.

(** An OPTIONS request on a path that would otherwise name a target, with
    an unparsable request URL thrown in for good measure. *)
Lemma options_is_answered_by_preflight_witness :
  let request := {| req_method := "OPTIONS"; req_url := "::not a url::";
                    req_headers := Headers_of_entries [("Upgrade", "websocket")];
                    req_body := BodyNull; req_redirect := "manual" |} in
  fetch Sample.new_URL Sample.silent_fetch Sample.dial_refused Sample.now_iso
        CONFIG request =
    {| reply := Fulfilled 0 (handleCORS CONFIG); fetches := []; dialled := None |}
  /\ res_status (handleCORS CONFIG) = 204
  /\ Headers_get (res_headers (handleCORS CONFIG)) "Access-Control-Allow-Origin"
       = Some "*"
  /\ Headers_get (res_headers (handleCORS CONFIG)) "Access-Control-Allow-Methods"
       = Some "GET, POST, PUT, DELETE, OPTIONS, HEAD, PATCH"
  /\ Headers_get (res_headers (handleCORS CONFIG)) "Access-Control-Allow-Headers"
       = Some "*"
  /\ Headers_get (res_headers (handleCORS CONFIG)) "Access-Control-Max-Age"
       = Some "86400".
Proof.
  intros request.
  exact (options_is_answered_by_preflight Sample.new_URL Sample.silent_fetch
           Sample.dial_refused Sample.now_iso CONFIG request eq_refl).
Defined.

(** ** Target resolution on the HTTP path *)

Lemma startsWith_nonempty s p : p <> "" -> startsWith s p = true -> s <> "".
Proof.
  intros Hp Hs ->. destruct p; [congruence | discriminate].
Qed.

Lemma resolveTarget_query cfg url t :
  URLSearchParams_get (searchParams url) "target" = Some t ->
  t <> "" ->
  resolveTarget cfg url = Some t.
Proof.
  intros Hq Ht. unfold resolveTarget. rewrite Hq, truthy_intro by assumption.
  reflexivity.
Qed.

Lemma resolveTarget_path cfg url :
  truthy (URLSearchParams_get (searchParams url) "target") = false ->
  startsWith (substring1 (pathname url)) "http" = true ->
  resolveTarget cfg url = Some (substring1 (pathname url)).
Proof.
  intros Hq Hp. unfold resolveTarget. rewrite Hq, Hp.
  rewrite truthy_intro; [reflexivity|].
  eapply startsWith_nonempty; [|exact Hp]. discriminate.
Qed.

Lemma resolveTarget_default cfg url d :
  truthy (URLSearchParams_get (searchParams url) "target") = false ->
  startsWith (substring1 (pathname url)) "http" = false ->
  DEFAULT_TARGET cfg = Some d ->
  d <> "" ->
  resolveTarget cfg url = Some (d +:+ pathname url +:+ search url).
Proof.
  intros Hq Hp Hd Hne. unfold resolveTarget.
  rewrite Hq, Hp, andb_false_r, Hd, truthy_intro by assumption. reflexivity.
Qed.

Lemma resolveTarget_none cfg url :
  truthy (URLSearchParams_get (searchParams url) "target") = false ->
  startsWith (substring1 (pathname url)) "http" = false ->
  truthy (DEFAULT_TARGET cfg) = false ->
  resolveTarget cfg url = None.
Proof.
  intros Hq Hp Hd. unfold resolveTarget.
  rewrite Hq, Hp, andb_false_r, Hd. reflexivity.
Qed.

(** [handleHTTP] never hands a rejected promise to its caller. *)
Lemma handleHTTP_never_rejects new_URL global_fetch now_iso cfg request url ms e :
  (handleHTTP new_URL global_fetch now_iso cfg request url).1 <> Rejected ms e.
Proof.
  unfold handleHTTP.
  destruct (resolveTarget cfg url); [|discriminate].
  destruct (new_URL _); [|discriminate].
  destruct (global_fetch _); discriminate.
Qed.

(** C3, as stated, fails on [/?target=]: the parameter is present with an
    empty value, the guard [if (targetParam)] treats it as missing, and
    with nothing else to go by the handler answers with the info page. *)
Lemma present_query_parameter_is_used_counterexample :
  let url := Sample.worker_url "/" "?target=" [("target", "")] in
  URLSearchParams_get (searchParams url) "target" = Some "" /\
  resolveTarget CONFIG url = None /\
  ~ present_query_parameter_is_used CONFIG url.
Proof.
  intros url. split; [reflexivity|]. split; [reflexivity|].
  intros H. specialize (H "" eq_refl). discriminate H.
Qed.

Lemma prefix_app_l (a b s : string) :
  String.prefix (a +:+ b) s = true -> String.prefix a s = true.
Proof.
  revert s. induction a as [|c a IH]; intros s; simpl.
  - destruct s; reflexivity.
  - destruct s as [|c' s]; simpl; [discriminate|].
    destruct (ascii_dec c c'); [apply IH | discriminate].
Qed.

(** A path that begins with a scheme literal passes the test the handler
    applies. *)
Lemma scheme_literal_passes_path_test p :
  begins_with_scheme_literal p = true -> startsWith p "http" = true.
Proof.
  unfold begins_with_scheme_literal, startsWith. intros H.
  apply orb_true_iff in H as [H|H].
  - exact (prefix_app_l "http" "://" p H).
  - exact (prefix_app_l "http" "s://" p H).
Qed.

(** C3 (amended): on the HTTP path the target is chosen in a fixed order
    and the choice never throws.  A [target] query parameter is used when
    it is present and not empty; failing that, the path without its
    leading slash is used when it begins with an HTTP(S) scheme literal,
    [http://] or [https://]; failing that, and for a stripped path that
    does not begin with [http], a non-empty configured default target is
    used, followed by the path and the query string; failing all three
    the handler answers with the info response and issues no outbound
    call.  In no case does [handleHTTP] reject.  Stripped paths that
    begin with [http] without beginning with a scheme literal are not
    spoken of. *)
Theorem target_resolution_order new_URL global_fetch now_iso cfg request url :
  let q := URLSearchParams_get (searchParams url) "target" in
  let p := substring1 (pathname url) in
  (forall t, q = Some t -> t <> "" -> resolveTarget cfg url = Some t) /\
  (truthy q = false -> begins_with_scheme_literal p = true ->
     resolveTarget cfg url = Some p) /\
  (forall d, truthy q = false -> startsWith p "http" = false ->
     DEFAULT_TARGET cfg = Some d -> d <> "" ->
     resolveTarget cfg url = Some (d +:+ pathname url +:+ search url)) /\
  (truthy q = false -> startsWith p "http" = false ->
     truthy (DEFAULT_TARGET cfg) = false ->
     resolveTarget cfg url = None /\
     handleHTTP new_URL global_fetch now_iso cfg request url
       = (Fulfilled 0 (createInfoResponse cfg), [])) /\
  (forall ms e,
     (handleHTTP new_URL global_fetch now_iso cfg request url).1 <> Rejected ms e).
Proof.
  intros q p. repeat split.
  - intros t. apply resolveTarget_query.
  - intros Hq Hp. apply resolveTarget_path; [exact Hq|].
    apply scheme_literal_passes_path_test, Hp.
  - intros d Hq Hp Hd Hne. eapply resolveTarget_default; eassumption.
  - apply resolveTarget_none; assumption.
  - unfold handleHTTP. rewrite resolveTarget_none by assumption. reflexivity.
  - intros ms e. apply handleHTTP_never_rejects.
Qed.

(** The four branches, each at a request that takes it. *)
Lemma target_resolution_order_witness :
  let by_query := Sample.worker_url "/https://elsewhere.example/"
                    "?target=https://example.test/data"
                    [("target", "https://example.test/data")] in
  let by_path := Sample.worker_url "/https://example.test/data" "?target="
                   [("target", "")] in
  let by_default := Sample.worker_url "/api" "?x=1" [("x", "1")] in
  let with_default := mkConfig (Some "https://example.test") false 0 0
                        (CORS CONFIG) [] [] in
  let request := Sample.get_request "https://worker.example/api?x=1" [] in
  resolveTarget with_default by_query = Some "https://example.test/data" /\
  resolveTarget with_default by_path = Some "https://example.test/data" /\
  resolveTarget with_default by_default = Some "https://example.test/api?x=1" /\
  resolveTarget CONFIG by_default = None /\
  handleHTTP Sample.new_URL Sample.quick_fetch Sample.now_iso CONFIG request
    by_default = (Fulfilled 0 (createInfoResponse CONFIG), []).
Proof.
  intros by_query by_path by_default with_default request.
  pose proof (target_resolution_order Sample.new_URL Sample.quick_fetch
                Sample.now_iso with_default request by_query) as (Hq & _).
  pose proof (target_resolution_order Sample.new_URL Sample.quick_fetch
                Sample.now_iso with_default request by_path) as (_ & Hp & _).
  pose proof (target_resolution_order Sample.new_URL Sample.quick_fetch
                Sample.now_iso with_default request by_default)
    as (_ & _ & Hd & _).
  pose proof (target_resolution_order Sample.new_URL Sample.quick_fetch
                Sample.now_iso CONFIG request by_default)
    as (_ & _ & _ & Hn & _).
  split; [apply (Hq _ eq_refl); discriminate|].
  split; [apply (Hp eq_refl eq_refl)|].
  split; [apply (Hd _ eq_refl eq_refl eq_refl); discriminate|].
  apply (Hn eq_refl eq_refl eq_refl).
Defined.

(** ** Malformed targets *)

(** On the HTTP path a target that does not parse goes to [handleError]:
    status 500, no outbound call. *)
Lemma handleHTTP_malformed_target new_URL global_fetch now_iso cfg request url t e :
  resolveTarget cfg url = Some t ->
  new_URL t = Throw e ->
  handleHTTP new_URL global_fetch now_iso cfg request url
    = (Fulfilled 0 (handleError now_iso cfg e), []) /\
  res_status (handleError now_iso cfg e) = 500.
Proof.
  intros Ht He. unfold handleHTTP. rewrite Ht, He. split; reflexivity.
Qed.

(** On the upgrade path the same failure is answered with status 400 and
    no session. *)
Lemma handleWebSocket_malformed_target new_URL dial_exception request url t e :
  URLSearchParams_get (searchParams url) "target" = Some t ->
  t <> "" ->
  new_URL t = Throw e ->
  exists r,
    handleWebSocket new_URL dial_exception request url = (r, None) /\
    res_status r = 400.
Proof.
  intros Hq Hne He. unfold handleWebSocket.
  rewrite Hq, truthy_intro by assumption. simpl. rewrite He.
  eexists; split; reflexivity.
Qed.

(** C4 at [GET /?target=not-a-url]: the plain request is answered with
    status 500 and a JSON error body, while the very same request sent
    as an upgrade is answered with status 400. *)
Theorem malformed_target_status_by_path :
  let plain := Sample.get_request "https://worker.example/?target=not-a-url" [] in
  let upgrade := Sample.get_request "https://worker.example/?target=not-a-url"
                   [("Upgrade", "websocket")] in
  let run := fetch Sample.new_URL Sample.quick_fetch Sample.dial_ok
               Sample.now_iso CONFIG in
  Sample.new_URL "not-a-url" = Throw {| message := "Invalid URL: not-a-url" |} /\
  (exists r, run plain = {| reply := Fulfilled 0 r; fetches := []; dialled := None |}
             /\ res_status r = 500
             /\ exists j, res_body r = BodyJson j /\
                          JSON_field "error" j = Some (JBool true)) /\
  (exists r, run upgrade = {| reply := Fulfilled 0 r; fetches := []; dialled := None |}
             /\ res_status r = 400).
Proof.
  intros plain upgrade run. split; [reflexivity|]. split.
  - eexists. split; [vm_compute; reflexivity|].
    split; [reflexivity|]. eexists. split; reflexivity.
  - eexists. split; [vm_compute; reflexivity | reflexivity].
Qed.

(** ** The upgrade path *)

Lemma fetch_upgrade new_URL global_fetch dial_exception now_iso cfg request url :
  is_upgrade new_URL request url ->
  fetch new_URL global_fetch dial_exception now_iso cfg request =
    {| reply := Fulfilled 0 (handleWebSocket new_URL dial_exception request url).1;
       fetches := [];
       dialled := (handleWebSocket new_URL dial_exception request url).2 |}.
Proof.
  intros (Hm & Hu & Hh). unfold fetch.
  apply String.eqb_neq in Hm. rewrite Hm, Hu.
  rewrite decide_True by assumption. reflexivity.
Qed.

Lemma handleWebSocket_query_only new_URL dial_exception request request' url url' :
  URLSearchParams_get (searchParams url') "target"
    = URLSearchParams_get (searchParams url) "target" ->
  handleWebSocket new_URL dial_exception request' url'
    = handleWebSocket new_URL dial_exception request url.
Proof. intros Hq. unfold handleWebSocket. rewrite Hq. reflexivity. Qed.

(** C10: for an upgrade request the reply, the outbound calls and the
    session are a function of the [target] query parameter alone: two
    upgrade requests that agree on it get the same outcome whatever
    their paths, their other parameters and the configured default
    target.  When the parameter is absent the reply is status 400, no
    session is created and nothing is called, also when [resolveTarget]
    would have found a target for the same URL. *)
Theorem upgrade_resolves_from_query_only
    new_URL global_fetch dial_exception now_iso cfg request url :
  is_upgrade new_URL request url ->
  (forall cfg' request' url',
     is_upgrade new_URL request' url' ->
     URLSearchParams_get (searchParams url') "target"
       = URLSearchParams_get (searchParams url) "target" ->
     fetch new_URL global_fetch dial_exception now_iso cfg' request'
       = fetch new_URL global_fetch dial_exception now_iso cfg request) /\
  (URLSearchParams_get (searchParams url) "target" = None ->
   exists r,
     fetch new_URL global_fetch dial_exception now_iso cfg request
       = {| reply := Fulfilled 0 r; fetches := []; dialled := None |} /\
     res_status r = 400).
Proof.
  intros Hup. split.
  - intros cfg' request' url' Hup' Hq.
    rewrite (fetch_upgrade _ _ _ _ cfg' request' url' Hup').
    rewrite (fetch_upgrade _ _ _ _ cfg request url Hup).
    rewrite (handleWebSocket_query_only _ _ request request' url url' Hq).
    reflexivity.
  - intros Hq. rewrite (fetch_upgrade _ _ _ _ cfg request url Hup).
    unfold handleWebSocket. rewrite Hq. simpl.
    eexists; split; reflexivity.
Qed.

(** An upgrade request on [/https://example.test/data] without a query:
    the HTTP path would take the target from the path (and, under another
    configuration, from the default), the upgrade path answers 400. *)
Lemma upgrade_resolves_from_query_only_witness :
  let request := Sample.get_request
                   "https://worker.example/https://example.test/data"
                   [("Upgrade", "websocket")] in
  let url := Sample.worker_url "/https://example.test/data" "" [] in
  let with_default := mkConfig (Some "https://example.test") false 0 0
                        (CORS CONFIG) [] [] in
  resolveTarget CONFIG url = Some "https://example.test/data" /\
  is_upgrade Sample.new_URL request url /\
  fetch Sample.new_URL Sample.quick_fetch Sample.dial_ok Sample.now_iso
        with_default request
    = fetch Sample.new_URL Sample.quick_fetch Sample.dial_ok Sample.now_iso
        CONFIG request /\
  exists r,
    fetch Sample.new_URL Sample.quick_fetch Sample.dial_ok Sample.now_iso
          CONFIG request
      = {| reply := Fulfilled 0 r; fetches := []; dialled := None |} /\
    res_status r = 400.
Proof.
  intros request url with_default.
  assert (Hup : is_upgrade Sample.new_URL request url).
  { split; [discriminate|]. split; [reflexivity|]. vm_compute; reflexivity. }
  destruct (upgrade_resolves_from_query_only Sample.new_URL Sample.quick_fetch
              Sample.dial_ok Sample.now_iso CONFIG request url Hup) as [Hsame Hnone].
  split; [reflexivity|]. split; [exact Hup|].
  split; [apply (Hsame with_default request url Hup eq_refl)|].
  apply (Hnone eq_refl).
Defined.

(** C7: when the [target] parameter of an upgrade request parses, the
    worker answers 101 and dials the parsed URL with its scheme coerced:
    [http:] becomes [ws:] and [https:] becomes [wss:], the rest of the
    URL (user info, host, path, query, fragment) being serialised as it
    was parsed; a [ws:] or [wss:] URL is dialled as parsed. *)
Theorem upgrade_dial_scheme new_URL dial_exception request url t u :
  URLSearchParams_get (searchParams url) "target" = Some t ->
  t <> "" ->
  new_URL t = Normal u ->
  let rest := "//" +:+ URL_userinfo u +:+ host u +:+ pathname u
                +:+ search u +:+ hash u in
  exists r d,
    handleWebSocket new_URL dial_exception request url
      = (r, Some (d, connectWebSocket dial_exception
                       {| readyState := OPEN; sent := [] |} d)) /\
    res_status r = 101 /\
    (protocol u = "http:" -> d = "ws:" +:+ rest) /\
    (protocol u = "https:" -> d = "wss:" +:+ rest) /\
    (protocol u = "ws:" \/ protocol u = "wss:" -> d = URL_toString u).
Proof.
  intros Hq Hne Hu rest. unfold handleWebSocket.
  rewrite Hq, truthy_intro by assumption. simpl. rewrite Hu.
  eexists _, _. split; [reflexivity|]. split; [reflexivity|].
  split; [|split].
  - intros ->. reflexivity.
  - intros ->. reflexivity.
  - intros [-> | ->]; reflexivity.
Qed.

(** [http://x.example/y] is dialled as [ws://x.example/y]. *)
Lemma upgrade_dial_scheme_witness :
  let url := Sample.worker_url "/" "?target=http://x.example/y"
               [("target", "http://x.example/y")] in
  let request := Sample.get_request "https://worker.example/" [] in
  exists r,
    handleWebSocket Sample.new_URL Sample.dial_ok request url
      = (r, Some ("ws://x.example/y",
                  Wired {| serverWs := {| readyState := OPEN; sent := [] |};
                           targetWs := {| readyState := CONNECTING; sent := [] |} |}))
    /\ res_status r = 101.
Proof.
  intros url request.
  destruct (upgrade_dial_scheme Sample.new_URL Sample.dial_ok request url
              "http://x.example/y" Sample.plain_target eq_refl
              ltac:(discriminate) eq_refl)
    as (r & d & Heq & Hst & Hhttp & _).
  exists r. rewrite Heq, (Hhttp eq_refl). split; [reflexivity | exact Hst].
Defined.

(** ** The relay session *)

(** No listener lets an exception escape. *)
Lemma deliver_total ev p : exists p', deliver ev p = Normal p'.
Proof.
  destruct ev as [s|[] data|[]|[]]; simpl;
    unfold server_on_message, target_on_message, server_on_close,
      target_on_close, server_on_error, target_on_error, WebSocket_send;
    simpl; try (eexists; reflexivity);
    case_decide as Hst; try rewrite Hst; eexists; reflexivity.
Qed.

Lemma run_total evs p : exists p', run evs p = Normal p'.
Proof.
  revert p. induction evs as [|ev evs IH]; intros p; simpl.
  - eexists; reflexivity.
  - destruct (deliver_total ev p) as [p' ->]. apply IH.
Qed.

Lemma run_snoc evs ev p p' :
  run evs p = Normal p' -> run (evs ++ [ev]) p = deliver ev p'.
Proof.
  revert p. induction evs as [|e evs IH]; intros p; simpl.
  - intros [= <-]. destruct (deliver ev p); reflexivity.
  - destruct (deliver e p); [apply IH | discriminate].
Qed.

Lemma WebSocket_close_not_open ws : readyState (WebSocket_close ws) <> OPEN.
Proof.
  unfold WebSocket_close. destruct (readyState ws) eqn:E; simpl; congruence.
Qed.

(** One close or error event: the peer is closed if it was open, left as
    it was otherwise, and is not open afterwards. *)
Lemma deliver_close_or_error p s ev :
  ev = EvClose s \/ ev = EvError s ->
  exists p',
    deliver ev p = Normal p' /\
    socket (other s) p' =
      (if decide (readyState (socket (other s) p) = OPEN)
       then WebSocket_close (socket (other s) p)
       else socket (other s) p) /\
    readyState (socket (other s) p') <> OPEN.
Proof.
  intros [-> | ->]; destruct s; simpl;
    unfold server_on_close, target_on_close, server_on_error, target_on_error;
    simpl; case_decide as Hst; eexists; (split; [reflexivity|]); simpl;
    (split; [reflexivity|]);
    first [apply WebSocket_close_not_open | exact Hst].
Qed.

(** X18: a close event or an error event on either socket is handled by
    closing the other socket when that one is open, and leaving it alone
    otherwise, so that the other socket is not open in the state the
    handling leaves; this holds in whatever state the pair is, hence
    after any run of earlier events.  When the constructor of the
    outbound socket throws, the server socket is closed: accepted and
    open before, it is closing afterwards. *)
Theorem close_and_error_propagate :
  (forall p s ev,
     ev = EvClose s \/ ev = EvError s ->
     exists p',
       deliver ev p = Normal p' /\
       socket (other s) p' =
         (if decide (readyState (socket (other s) p) = OPEN)
          then WebSocket_close (socket (other s) p)
          else socket (other s) p) /\
       readyState (socket (other s) p') <> OPEN) /\
  (forall evs p0 s ev,
     ev = EvClose s \/ ev = EvError s ->
     exists p',
       run (evs ++ [ev]) p0 = Normal p' /\
       readyState (socket (other s) p') <> OPEN) /\
  (forall dial_exception server targetUrl e,
     dial_exception targetUrl = Some e ->
     connectWebSocket dial_exception server targetUrl
       = DialThrew (WebSocket_close server) /\
     readyState (WebSocket_close server) <> OPEN /\
     (readyState server = OPEN -> readyState (WebSocket_close server) = CLOSING)).
Proof.
  split; [|split].
  - intros p s ev Hev. apply deliver_close_or_error, Hev.
  - intros evs p0 s ev Hev.
    destruct (run_total evs p0) as [p1 Hrun].
    destruct (deliver_close_or_error p1 s ev Hev) as (p' & Hd & _ & Hst).
    exists p'. rewrite (run_snoc _ _ _ _ Hrun). split; assumption.
  - intros dial_exception server targetUrl e He.
    unfold connectWebSocket, new_WebSocket. rewrite He.
    split; [reflexivity|]. split; [apply WebSocket_close_not_open|].
    intros Hst. unfold WebSocket_close. rewrite Hst. reflexivity.
Qed.

(** A relaying pair that has exchanged one message each way: the target
    closes, and the server side is closed in turn; and a dial that throws
    on the freshly accepted server socket. *)
Lemma close_and_error_propagate_witness :
  let relaying := {| serverWs := {| readyState := OPEN; sent := [TextData "pong"] |};
                     targetWs := {| readyState := OPEN; sent := [TextData "ping"] |} |} in
  (exists p',
     deliver (EvClose Target) relaying = Normal p' /\
     socket (other Target) p' = WebSocket_close (serverWs relaying) /\
     readyState (socket (other Target) p') <> OPEN) /\
  connectWebSocket Sample.dial_refused {| readyState := OPEN; sent := [] |}
      "wss://echo.example/socket"
    = DialThrew {| readyState := CLOSING; sent := [] |}.
Proof.
  intros relaying.
  destruct close_and_error_propagate as (Hev & _ & Hdial).
  split.
  - apply (Hev relaying Target (EvClose Target)). left; reflexivity.
  - apply (Hdial Sample.dial_refused {| readyState := OPEN; sent := [] |}
             "wss://echo.example/socket" _ eq_refl).
Defined.

(** A close event that arrives while the peer is still connecting finds
    nothing to close; the peer may open afterwards. *)
Remark server_close_before_target_opens :
  run [EvClose Server; EvOpen Target]
      {| serverWs := {| readyState := OPEN; sent := [] |};
         targetWs := {| readyState := CONNECTING; sent := [] |} |}
  = Normal {| serverWs := {| readyState := CLOSED; sent := [] |};
              targetWs := {| readyState := OPEN; sent := [] |} |}.
Proof. reflexivity. Qed.

Lemma app_singleton_neq {A} (l : list A) (x : A) : (l ++ [x])%list <> l.
Proof.
  intros H. apply (f_equal length) in H. rewrite length_app in H.
  simpl in H. lia.
Qed.

(** C2: a message event on one socket is forwarded to the other socket
    exactly when that socket's [readyState] is [OPEN].  Forwarding hands
    the event's data to [send] as it came (a text frame stays text, a
    binary frame stays the same bytes) and changes nothing else; when
    the destination is not open the pair is left exactly as it was.  In
    both cases the listener returns normally. *)
Theorem message_forwarded_iff_destination_open p s data :
  exists p',
    deliver (EvMessage s data) p = Normal p' /\
    socket s p' = socket s p /\
    (readyState (socket (other s) p) = OPEN ->
       socket (other s) p' =
         {| readyState := OPEN; sent := sent (socket (other s) p) ++ [data] |}) /\
    (readyState (socket (other s) p) <> OPEN -> p' = p) /\
    (sent (socket (other s) p') = (sent (socket (other s) p) ++ [data])%list
       <-> readyState (socket (other s) p) = OPEN).
Proof.
  destruct s; simpl; unfold server_on_message, target_on_message, WebSocket_send;
    case_decide as Hst.
  all: try rewrite Hst.
  all: eexists; split; [reflexivity|]; simpl.
  all: split; [reflexivity|].
  all: split; [intros; try reflexivity; congruence|].
  all: split; [intros; try reflexivity; congruence|].
  all: split; intros H.
  all: first [ exact Hst | reflexivity | contradiction
             | exfalso; symmetry in H; exact (app_singleton_neq _ _ H) ].
Qed.

(** A binary frame from the caller reaches an open target untouched, and
    a text frame from the target is dropped once the caller's socket is
    closing. *)
Lemma message_forwarded_iff_destination_open_witness :
  let frame := BinaryData [Byte.x00; Byte.xff; Byte.x7f] in
  let relaying := {| serverWs := {| readyState := OPEN; sent := [] |};
                     targetWs := {| readyState := OPEN; sent := [TextData "ping"] |} |} in
  let closing := {| serverWs := {| readyState := CLOSING; sent := [] |};
                    targetWs := {| readyState := OPEN; sent := [] |} |} in
  deliver (EvMessage Server frame) relaying
    = Normal {| serverWs := serverWs relaying;
                targetWs := {| readyState := OPEN;
                               sent := [TextData "ping"; frame] |} |} /\
  deliver (EvMessage Target (TextData "late")) closing = Normal closing.
Proof.
  intros frame relaying closing. split.
  - destruct (message_forwarded_iff_destination_open relaying Server frame)
      as (p' & -> & Hsame & Hopen & _).
    destruct p' as [sv tg]. simpl in *. rewrite Hsame, (Hopen eq_refl).
    reflexivity.
  - destruct (message_forwarded_iff_destination_open closing Target
                (TextData "late")) as (p' & -> & _ & _ & Hdrop & _).
    rewrite Hdrop; [reflexivity | discriminate].
Defined.

(** ** Header policy of the HTTP relay *)

Lemma outboundHeaders_lookup cfg request target k :
  outboundHeaders cfg request target !! k =
  if decide (k = "origin") then None
  else if decide (k = "host") then Some (host target)
  else if decide (k ∈ toLowerCase <$> REMOVE_HEADERS cfg) then None
  else req_headers request !! k.
Proof.
  unfold outboundHeaders, Headers_delete, Headers_set.
  change (toLowerCase "Origin") with "origin".
  change (toLowerCase "Host") with "host".
  destruct (decide (k = "origin")) as [->|Ho].
  { apply lookup_delete_eq. }
  rewrite lookup_delete_ne by congruence.
  destruct (decide (k = "host")) as [->|Hh].
  { apply lookup_insert_eq. }
  rewrite lookup_insert_ne by congruence.
  apply lookup_foldl_delete.
Qed.

(** Every outbound call of [handleHTTP] is the request built from the
    resolved and parsed target. *)
Lemma handleHTTP_outbound new_URL global_fetch now_iso cfg request url out :
  out ∈ (handleHTTP new_URL global_fetch now_iso cfg request url).2 ->
  exists t target,
    resolveTarget cfg url = Some t /\
    new_URL t = Normal target /\
    out = {| req_method := req_method request;
             req_url := URL_toString target;
             req_headers := outboundHeaders cfg request target;
             req_body := req_body request;
             req_redirect := "follow" |}.
Proof.
  unfold handleHTTP.
  destruct (resolveTarget cfg url) as [t|]; [|intros H; inversion H].
  destruct (new_URL t) as [target|e] eqn:Hu; [|intros H; inversion H].
  intros Hin. exists t, target. split; [reflexivity|]. split; [exact Hu|].
  destruct (global_fetch _); simpl in Hin;
    apply list_elem_of_singleton in Hin; exact Hin.
Qed.

(** C5: every request the HTTP relay sends out is addressed to the
    resolved target and carries a header set in which no name of the
    removal list is present (however the name is cased), no Origin header
    is present, and Host is the host of the resolved target, whatever
    headers the inbound request had.  The configuration is taken not to
    list Host itself for removal, as is the case of [CONFIG]. *)
Theorem outbound_request_headers new_URL global_fetch now_iso cfg request url out :
  request_policy_consistent cfg ->
  out ∈ (handleHTTP new_URL global_fetch now_iso cfg request url).2 ->
  exists t target,
    resolveTarget cfg url = Some t /\
    new_URL t = Normal target /\
    req_url out = URL_toString target /\
    (forall name, toLowerCase name ∈ toLowerCase <$> REMOVE_HEADERS cfg ->
                  Headers_has (req_headers out) name = false) /\
    (forall name, toLowerCase name = toLowerCase "Origin" ->
                  Headers_has (req_headers out) name = false) /\
    Headers_get (req_headers out) "Host" = Some (host target).
Proof.
  intros Hcons Hin.
  destruct (handleHTTP_outbound _ _ _ _ _ _ _ Hin) as (t & target & Ht & Hu & ->).
  exists t, target. split; [exact Ht|]. split; [exact Hu|]. split; [reflexivity|].
  cbn [req_headers]. split; [|split].
  - intros name Hname. apply Headers_has_get. unfold Headers_get.
    rewrite outboundHeaders_lookup.
    repeat case_decide; try reflexivity.
    + exfalso. apply Hcons. change (toLowerCase "Host") with "host". congruence.
    + contradiction.
  - intros name Hname. apply Headers_has_get. unfold Headers_get.
    rewrite outboundHeaders_lookup, Hname. reflexivity.
  - unfold Headers_get. rewrite outboundHeaders_lookup. reflexivity.
Qed.

Lemma CONFIG_request_policy_consistent : request_policy_consistent CONFIG.
Proof. names_distinct. Qed.

(** Scenario 1 with a caller that sends every header the policy is
    about, in mixed case. *)
Lemma outbound_request_headers_witness :
  let request := Sample.get_request
      "https://worker.example/?target=https://example.test/data"
      [("Host", "worker.example"); ("Origin", "https://app.example");
       ("CF-Ray", "abc123"); ("X-Forwarded-For", "203.0.113.7");
       ("X-Real-IP", "203.0.113.7"); ("Accept", "*/*")] in
  let url := Sample.worker_url "/" "?target=https://example.test/data"
               [("target", "https://example.test/data")] in
  let out := {| req_method := "GET"; req_url := "https://example.test/data";
                req_headers := outboundHeaders CONFIG request Sample.target;
                req_body := BodyNull; req_redirect := "follow" |} in
  (handleHTTP Sample.new_URL Sample.quick_fetch Sample.now_iso CONFIG request url).2
    = [out] /\
  Headers_has (req_headers out) "CF-Ray" = false /\
  Headers_has (req_headers out) "x-forwarded-for" = false /\
  Headers_has (req_headers out) "ORIGIN" = false /\
  Headers_get (req_headers out) "Host" = Some "example.test" /\
  Headers_get (req_headers out) "Accept" = Some "*/*".
Proof.
  intros request url out.
  assert (Hcalls :
    (handleHTTP Sample.new_URL Sample.quick_fetch Sample.now_iso CONFIG request url).2
      = [out]) by reflexivity.
  assert (Hin :
    out ∈ (handleHTTP Sample.new_URL Sample.quick_fetch Sample.now_iso CONFIG
             request url).2)
    by (rewrite Hcalls; apply list_elem_of_singleton; reflexivity).
  destruct (outbound_request_headers Sample.new_URL Sample.quick_fetch
              Sample.now_iso CONFIG request url out
              CONFIG_request_policy_consistent Hin)
    as (t & target & Ht & Hu & _ & Hrm & Hor & Hhost).
  assert (target = Sample.target) as ->.
  { assert (t = "https://example.test/data") as -> by (vm_compute in Ht; congruence).
    vm_compute in Hu. injection Hu as <-. reflexivity. }
  split; [exact Hcalls|].
  split; [apply Hrm; names_distinct|].
  split; [apply Hrm; names_distinct|].
  split; [apply Hor; reflexivity|].
  split; [exact Hhost|].
  vm_compute. reflexivity.
Defined.








(** ** Waiting for the target *)

(** The configured timeout plays no part in [handleHTTP]: two
    configurations that differ in it alone give the same outcome. *)
Lemma handleHTTP_ignores_TIMEOUT new_URL global_fetch now_iso cfg request url timeout :
  let cfg' := {| DEFAULT_TARGET := DEFAULT_TARGET cfg; DEBUG := DEBUG cfg;
                 MAX_BODY_SIZE := MAX_BODY_SIZE cfg; TIMEOUT := timeout;
                 CORS := CORS cfg; SECURITY_HEADERS := SECURITY_HEADERS cfg;
                 REMOVE_HEADERS := REMOVE_HEADERS cfg |} in
  handleHTTP new_URL global_fetch now_iso cfg' request url
    = handleHTTP new_URL global_fetch now_iso cfg request url.
Proof. reflexivity. Qed.

(** The reply settles when the outbound call settles, and not before. *)
Lemma handleHTTP_waits_for_target new_URL global_fetch now_iso cfg request url out :
  (handleHTTP new_URL global_fetch now_iso cfg request url).2 = [out] ->
  match global_fetch out with
  | Fulfilled ms _ | Rejected ms _ =>
      exists r, (handleHTTP new_URL global_fetch now_iso cfg request url).1
                  = Fulfilled ms r
  | Pending =>
      (handleHTTP new_URL global_fetch now_iso cfg request url).1 = Pending
  end.
Proof.
  unfold handleHTTP.
  destruct (resolveTarget cfg url) as [t|]; [|discriminate].
  destruct (new_URL t) as [target|e]; [|discriminate].
  destruct (global_fetch _) as [ms r|ms e|] eqn:Hf; simpl;
    intros [= <-]; rewrite Hf; try (eexists; reflexivity); reflexivity.
Qed.

(** C8 at [GET /?target=https://example.test/data] with the timeout of
    [CONFIG], 30000 ms: a target that answers after 60000 ms has its
    answer relayed, with status 200, at 60000 ms; a target that never
    answers leaves the reply pending for ever; only a call that the
    platform itself rejects yields the JSON error body, at the time of
    the rejection. *)
Theorem outbound_call_is_not_bounded_by_timeout :
  let request := Sample.get_request
      "https://worker.example/?target=https://example.test/data" [] in
  let run f := fetch Sample.new_URL f Sample.dial_ok Sample.now_iso CONFIG request in
  TIMEOUT CONFIG = 30000%Z /\
  (exists r, reply (run Sample.slow_fetch) = Fulfilled 60000 r /\
             res_status r = 200 /\ res_body r = BodyStream []) /\
  reply (run Sample.silent_fetch) = Pending /\
  (exists r j, reply (run Sample.refused_fetch) = Fulfilled 15 r /\
               res_status r = 500 /\ res_body r = BodyJson j /\
               JSON_field "error" j = Some (JBool true)).
Proof.
  intros request run. split; [reflexivity|]. split; [|split].
  - eexists. split; [vm_compute; reflexivity|]. split; reflexivity.
  - vm_compute. reflexivity.
  - eexists _, _. split; [vm_compute; reflexivity|].
    split; [reflexivity|]. split; reflexivity.
Qed.

(** * Further properties of the handlers *)

(** ** The front controller *)

(** The three ways [handleHTTP] can go. *)
Lemma handleHTTP_cases new_URL global_fetch now_iso cfg request url :
  (resolveTarget cfg url = None /\
   handleHTTP new_URL global_fetch now_iso cfg request url
     = (Fulfilled 0 (createInfoResponse cfg), [])) \/
  (exists t e,
     resolveTarget cfg url = Some t /\ new_URL t = Throw e /\
     handleHTTP new_URL global_fetch now_iso cfg request url
       = (Fulfilled 0 (handleError now_iso cfg e), [])) \/
  (exists t target,
     resolveTarget cfg url = Some t /\ new_URL t = Normal target /\
     handleHTTP new_URL global_fetch now_iso cfg request url
       = (match global_fetch (modified_request cfg request target) with
          | Fulfilled ms response =>
              Fulfilled ms {| res_status := res_status response;
                              res_statusText := res_statusText response;
                              res_headers := relayedHeaders cfg (res_headers response);
                              res_body := res_body response;
                              res_webSocket := false |}
          | Rejected ms error => Fulfilled ms (handleError now_iso cfg error)
          | Pending => Pending
          end, [modified_request cfg request target])).
Proof.
  unfold handleHTTP.
  destruct (resolveTarget cfg url) as [t|]; [|left; split; reflexivity].
  destruct (new_URL t) as [target|e] eqn:Hu; right.
  - right. exists t, target. split; [reflexivity|]. split; [exact Hu|].
    fold (modified_request cfg request target).
    destruct (global_fetch _); reflexivity.
  - left. exists t, e. repeat split; assumption.
Qed.

(** A request that is neither a preflight nor an upgrade gets what
    [handleHTTP] returns, and no socket. *)
Lemma fetch_http new_URL global_fetch dial_exception now_iso cfg request url :
  req_method request <> "OPTIONS" ->
  new_URL (req_url request) = Normal url ->
  Headers_get (req_headers request) "Upgrade" <> Some "websocket" ->
  fetch new_URL global_fetch dial_exception now_iso cfg request =
    {| reply := (handleHTTP new_URL global_fetch now_iso cfg request url).1;
       fetches := (handleHTTP new_URL global_fetch now_iso cfg request url).2;
       dialled := None |}.
Proof.
  intros Hm Hu Hh. unfold fetch.
  apply String.eqb_neq in Hm. rewrite Hm, Hu.
  rewrite decide_False by assumption. cbv zeta.
  pose proof (handleHTTP_never_rejects new_URL global_fetch now_iso cfg request url)
    as Hnr.
  destruct (handleHTTP new_URL global_fetch now_iso cfg request url).1
    as [ms r|ms e|]; try reflexivity.
  exfalso. exact (Hnr ms e eq_refl).
Qed.

(** The four ways a call of the worker can go. *)
Lemma fetch_cases new_URL global_fetch dial_exception now_iso cfg request :
  let o := fetch new_URL global_fetch dial_exception now_iso cfg request in
  (req_method request = "OPTIONS" /\
   o = {| reply := Fulfilled 0 (handleCORS cfg); fetches := []; dialled := None |}) \/
  (exists e, req_method request <> "OPTIONS" /\
     new_URL (req_url request) = Throw e /\
     o = {| reply := Fulfilled 0 (handleError now_iso cfg e); fetches := [];
            dialled := None |}) \/
  (exists url, is_upgrade new_URL request url /\
     o = {| reply := Fulfilled 0 (handleWebSocket new_URL dial_exception request url).1;
            fetches := [];
            dialled := (handleWebSocket new_URL dial_exception request url).2 |}) \/
  (exists url, req_method request <> "OPTIONS" /\
     new_URL (req_url request) = Normal url /\
     Headers_get (req_headers request) "Upgrade" <> Some "websocket" /\
     o = {| reply := (handleHTTP new_URL global_fetch now_iso cfg request url).1;
            fetches := (handleHTTP new_URL global_fetch now_iso cfg request url).2;
            dialled := None |}).
Proof.
  intros o. subst o.
  destruct (String.eqb_spec (req_method request) "OPTIONS") as [Hm|Hm].
  { left. split; [exact Hm|]. unfold fetch. rewrite Hm. reflexivity. }
  right.
  destruct (new_URL (req_url request)) as [url|e] eqn:Hu.
  2:{ left. exists e. split; [exact Hm|]. split; [reflexivity|].
      unfold fetch. apply String.eqb_neq in Hm. rewrite Hm, Hu. reflexivity. }
  right.
  destruct (decide (Headers_get (req_headers request) "Upgrade" = Some "websocket"))
    as [Hh|Hh].
  - left. exists url. assert (Hup : is_upgrade new_URL request url) by (repeat split; assumption).
    split; [exact Hup|]. apply fetch_upgrade, Hup.
  - right. exists url. repeat split; try assumption.
    apply fetch_http; assumption.
Qed.

(** X1: the worker never hands a rejected promise to the platform,
    whatever the URL parser, the outbound call or the socket constructor
    do; and its reply stays pending exactly when it issued an outbound
    call that stays pending. *)
Theorem worker_reply_never_rejects
    new_URL global_fetch dial_exception now_iso cfg request :
  let o := fetch new_URL global_fetch dial_exception now_iso cfg request in
  (forall ms e, reply o <> Rejected ms e) /\
  (reply o = Pending <->
   exists out, fetches o = [out] /\ global_fetch out = Pending).
Proof.
  intros o.
  destruct (fetch_cases new_URL global_fetch dial_exception now_iso cfg request)
    as [(_ & Ho) | [(e & _ & _ & Ho) | [(url & _ & Ho) | (url & _ & _ & _ & Ho)]]];
    fold o in Ho; rewrite Ho; cbn [reply fetches].
  1-3: split; [discriminate|];
       split; [discriminate | intros (out & Hf & _); discriminate Hf].
  split; [intros ms e; apply handleHTTP_never_rejects|].
  destruct (handleHTTP_cases new_URL global_fetch now_iso cfg request url)
    as [(_ & ->) | [(t & e & _ & _ & ->) | (t & target & _ & _ & ->)]];
    cbn [fst snd].
  1-2: split; [discriminate | intros (out & Hf & _); discriminate Hf].
  split.
  - intros Hp. exists (modified_request cfg request target).
    split; [reflexivity|].
    destruct (global_fetch _); [discriminate | discriminate | reflexivity].
  - intros (out & [= <-] & Hp). rewrite Hp. reflexivity.
Qed.

(** X2: one call of the worker issues at most one outbound HTTP call,
    dials at most one socket, and never does both. *)
Theorem at_most_one_outbound_call
    new_URL global_fetch dial_exception now_iso cfg request :
  let o := fetch new_URL global_fetch dial_exception now_iso cfg request in
  length (fetches o) <= 1 /\ (fetches o = [] \/ dialled o = None).
Proof.
  intros o.
  destruct (fetch_cases new_URL global_fetch dial_exception now_iso cfg request)
    as [(_ & Ho) | [(e & _ & _ & Ho) | [(url & _ & Ho) | (url & _ & _ & _ & Ho)]]];
    fold o in Ho; rewrite Ho; cbn [reply fetches dialled].
  1-3: split; [simpl; lia | left; reflexivity].
  split; [|right; reflexivity].
  destruct (handleHTTP_cases new_URL global_fetch now_iso cfg request url)
    as [(_ & ->) | [(t & e & _ & _ & ->) | (t & target & _ & _ & ->)]];
    simpl; lia.
Qed.

(** The three ways [handleWebSocket] can go. *)
Lemma handleWebSocket_cases new_URL dial_exception request url :
  let q := URLSearchParams_get (searchParams url) "target" in
  (truthy q = false /\
   handleWebSocket new_URL dial_exception request url
     = (new_Response (BodyText "Missing target parameter for WebSocket") 400 "" ∅,
        None)) \/
  (exists t e, q = Some t /\ t <> "" /\ new_URL t = Throw e /\
   handleWebSocket new_URL dial_exception request url
     = (new_Response (BodyText ("WebSocket error: " +:+ message e)) 400 "" ∅,
        None)) \/
  (exists t u, q = Some t /\ t <> "" /\ new_URL t = Normal u /\
   handleWebSocket new_URL dial_exception request url
     = (switching_protocols,
        Some (URL_toString (dial_url u),
              connectWebSocket dial_exception accepted (URL_toString (dial_url u))))).
Proof.
  intros q. subst q. unfold handleWebSocket.
  destruct (URLSearchParams_get (searchParams url) "target") as [t|] eqn:Hq.
  2:{ left. split; reflexivity. }
  destruct t as [|c t'].
  { left. split; reflexivity. }
  right. simpl.
  destruct (new_URL (String c t')) as [u|e] eqn:Hu.
  - right. exists (String c t'), u.
    split; [reflexivity|]. split; [discriminate|]. split; [exact Hu|].
    unfold dial_url. reflexivity.
  - left. exists (String c t'), e.
    split; [reflexivity|]. split; [discriminate|]. split; [exact Hu|]. reflexivity.
Qed.

(** X3: a socket is dialled exactly for a request that is not a
    preflight, carries the header [Upgrade: websocket] (the value compared
    as it is), and has a non-empty [target] query parameter that parses
    as a URL. *)
Theorem socket_is_dialled_iff
    new_URL global_fetch dial_exception now_iso cfg request :
  dialled (fetch new_URL global_fetch dial_exception now_iso cfg request) <> None
  <->
  exists url t u,
    is_upgrade new_URL request url /\
    URLSearchParams_get (searchParams url) "target" = Some t /\
    t <> "" /\ new_URL t = Normal u.
Proof.
  destruct (fetch_cases new_URL global_fetch dial_exception now_iso cfg request)
    as [(Hm & Ho) | [(e & _ & Hu & Ho) | [(url & Hup & Ho) | (url & _ & Hu & Hh & Ho)]]];
    rewrite Ho; cbn [dialled].
  - split; [congruence|]. intros (url & t & u & (Hm' & _) & _). contradiction.
  - split; [congruence|]. intros (url & t & u & (_ & Hu' & _) & _). congruence.
  - destruct (handleWebSocket_cases new_URL dial_exception request url)
      as [(Hq & ->) | [(t & e & Hq & Hne & Ht & ->) | (t & u & Hq & Hne & Ht & ->)]];
      cbn [snd].
    + split; [congruence|]. intros (url' & t & u & (_ & Hu' & _) & Hq' & Hne & _).
      destruct Hup as (_ & Hu & _). assert (url' = url) as -> by congruence.
      rewrite Hq' in Hq. rewrite truthy_intro in Hq by assumption. discriminate.
    + split; [congruence|]. intros (url' & t' & u & (_ & Hu' & _) & Hq' & _ & Ht').
      destruct Hup as (_ & Hu & _). assert (url' = url) as -> by congruence.
      congruence.
    + split; [|discriminate]. intros _. exists url, t, u. repeat split; try assumption;
        apply Hup.
  - split; [congruence|]. intros (url' & t & u & (_ & _ & Hh') & _). contradiction.
Qed.


(** ** More on the upgrade path *)

(** X5: [handleWebSocket] answers either 101 with the client end of a
    pair and a session, or 400 with a plain-text body, no client end and
    no session; 101 is given exactly when the [target] parameter is
    non-empty and parses. *)
Theorem upgrade_reply_is_101_or_400 new_URL dial_exception request url :
  let r := handleWebSocket new_URL dial_exception request url in
  let parses := exists t u,
      URLSearchParams_get (searchParams url) "target" = Some t /\
      t <> "" /\ new_URL t = Normal u in
  (parses /\ res_status r.1 = 101 /\ res_webSocket r.1 = true /\
   res_body r.1 = BodyNull /\ r.2 <> None) \/
  (~ parses /\ res_status r.1 = 400 /\ res_webSocket r.1 = false /\
   (exists text, res_body r.1 = BodyText text) /\ r.2 = None).
Proof.
  intros r parses. subst r parses.
  destruct (handleWebSocket_cases new_URL dial_exception request url)
    as [(Hq & ->) | [(t & e & Hq & Hne & Ht & ->) | (t & u & Hq & Hne & Ht & ->)]];
    cbn [fst snd].
  - right. split.
    + intros (t & u & Hq' & Hne & _). rewrite Hq', truthy_intro in Hq by assumption.
      discriminate.
    + repeat split; try reflexivity. eexists; reflexivity.
  - right. split.
    + intros (t' & u & Hq' & _ & Ht'). congruence.
    + repeat split; try reflexivity. eexists; reflexivity.
  - left. split; [exists t, u; repeat split; assumption|].
    repeat split; try reflexivity. discriminate.
Qed.

(** X6: the upgrade is accepted before the outbound socket is
    constructed: the reply does not depend on whether the constructor
    throws.  When it does throw for the URL to dial, the caller still
    gets 101, and the server end it is connected to is already closing,
    with no listener attached. *)
Theorem upgrade_is_accepted_before_the_dial
    new_URL dial_exception dial_exception' request url t u e :
  URLSearchParams_get (searchParams url) "target" = Some t ->
  t <> "" ->
  new_URL t = Normal u ->
  dial_exception (URL_toString (dial_url u)) = Some e ->
  (handleWebSocket new_URL dial_exception request url).1
    = (handleWebSocket new_URL dial_exception' request url).1 /\
  handleWebSocket new_URL dial_exception request url
    = (switching_protocols,
       Some (URL_toString (dial_url u),
             DialThrew {| readyState := CLOSING; sent := [] |})).
Proof.
  intros Hq Hne Hu He.
  destruct (handleWebSocket_cases new_URL dial_exception request url)
    as [(Hq' & _) | [(t1 & e1 & Hq1 & _ & Ht1 & _) | (t1 & u1 & Hq1 & _ & Ht1 & H1)]].
  { rewrite Hq, truthy_intro in Hq' by assumption. discriminate. }
  { congruence. }
  destruct (handleWebSocket_cases new_URL dial_exception' request url)
    as [(Hq' & _) | [(t2 & e2 & Hq2 & _ & Ht2 & _) | (t2 & u2 & Hq2 & _ & Ht2 & H2)]].
  { rewrite Hq, truthy_intro in Hq' by assumption. discriminate. }
  { congruence. }
  assert (u1 = u) as -> by congruence.
  rewrite H1, H2. split; [reflexivity|].
  unfold connectWebSocket, new_WebSocket. rewrite He. reflexivity.
Qed.

Lemma upgrade_is_accepted_before_the_dial_witness :
  let url := Sample.worker_url "/" "?target=wss://echo.example/socket"
               [("target", "wss://echo.example/socket")] in
  let request := Sample.get_request "https://worker.example/" [] in
  (handleWebSocket Sample.new_URL Sample.dial_refused request url).1
    = (handleWebSocket Sample.new_URL Sample.dial_ok request url).1 /\
  handleWebSocket Sample.new_URL Sample.dial_refused request url
    = (switching_protocols,
       Some ("wss://echo.example/socket",
             DialThrew {| readyState := CLOSING; sent := [] |})).
Proof.
  intros url request.
  exact (upgrade_is_accepted_before_the_dial Sample.new_URL Sample.dial_refused
           Sample.dial_ok request url "wss://echo.example/socket"
           Sample.echo_target {| message := "Invalid URL" |}
           eq_refl ltac:(discriminate) eq_refl eq_refl).
Defined.



(** ** More on the relay session *)

Lemma with_socket_same s p : with_socket s (socket s p) p = p.
Proof. destruct s, p; reflexivity. Qed.

Lemma deliver_message_closed_peer p s data :
  readyState (socket (other s) p) <> OPEN ->
  deliver (EvMessage s data) p = Normal p.
Proof.
  destruct s; simpl; unfold server_on_message, target_on_message;
    intros Hst; rewrite decide_False by assumption; reflexivity.
Qed.

Lemma deliver_message_open_peer p s data :
  readyState (socket (other s) p) = OPEN ->
  deliver (EvMessage s data) p =
    Normal (with_socket (other s)
              {| readyState := OPEN;
                 sent := sent (socket (other s) p) ++ [data] |} p).
Proof.
  destruct s; simpl; unfold server_on_message, target_on_message, WebSocket_send;
    intros Hst; rewrite decide_True by assumption; rewrite Hst; reflexivity.
Qed.

Lemma run_cons ev evs p p1 :
  deliver ev p = Normal p1 -> run (ev :: evs) p = run evs p1.
Proof. intros H. simpl. rewrite H. reflexivity. Qed.

Lemma run_app evs1 evs2 p p1 :
  run evs1 p = Normal p1 -> run (evs1 ++ evs2) p = run evs2 p1.
Proof.
  revert p. induction evs1 as [|e evs1 IH]; intros p; simpl.
  - intros [= <-]. reflexivity.
  - destruct (deliver e p); [apply IH | discriminate].
Qed.

Lemma run_messages_closed_peer p s (datas : list Payload) :
  readyState (socket (other s) p) <> OPEN ->
  run (EvMessage s <$> datas) p = Normal p.
Proof.
  intros Hst. induction datas as [|d datas IH]; [reflexivity|].
  rewrite fmap_cons.
  rewrite (run_cons _ _ _ _ (deliver_message_closed_peer p s d Hst)). exact IH.
Qed.

(** X8: nothing is buffered for a peer that is still connecting: the
    messages one side receives before the other side's open event are
    dropped, and once the other side opens it has been sent none of
    them; the pair is otherwise unchanged. *)
Theorem messages_before_open_are_lost p s (datas : list Payload) :
  readyState (socket (other s) p) = CONNECTING ->
  run (EvMessage s <$> datas) p = Normal p /\
  run ((EvMessage s <$> datas) ++ [EvOpen (other s)]) p
    = Normal (with_socket (other s)
                {| readyState := OPEN; sent := sent (socket (other s) p) |} p).
Proof.
  intros Hst.
  assert (Hrun : run (EvMessage s <$> datas) p = Normal p).
  { apply run_messages_closed_peer. rewrite Hst. discriminate. }
  split; [exact Hrun|].
  rewrite (run_app _ _ _ _ Hrun). simpl. unfold mark_open. rewrite Hst.
  reflexivity.
Qed.

(** The session [connectWebSocket] has just wired: two frames from the
    caller arrive before the target has opened. *)
Lemma messages_before_open_are_lost_witness :
  let wired := {| serverWs := accepted;
                  targetWs := {| readyState := CONNECTING; sent := [] |} |} in
  let early := [TextData "hello"; BinaryData [Byte.x01]] in
  connectWebSocket Sample.dial_ok accepted "wss://echo.example/socket"
    = Wired wired /\
  run (EvMessage Server <$> early) wired = Normal wired /\
  run ((EvMessage Server <$> early) ++ [EvOpen Target]) wired
    = Normal {| serverWs := accepted;
                targetWs := {| readyState := OPEN; sent := [] |} |}.
Proof.
  intros wired early. split; [reflexivity|].
  exact (messages_before_open_are_lost wired Server early eq_refl).
Defined.

(** X9: while the destination stays open, a run of messages from one side
    reaches it complete, in order and without duplicates: its list of
    sent frames grows by exactly those messages, and nothing else in the
    pair changes. *)
Theorem relay_preserves_message_order p s (datas : list Payload) :
  readyState (socket (other s) p) = OPEN ->
  run (EvMessage s <$> datas) p
    = Normal (with_socket (other s)
                {| readyState := OPEN;
                   sent := sent (socket (other s) p) ++ datas |} p).
Proof.
  revert p. induction datas as [|d datas IH]; intros p Hst.
  - simpl. rewrite app_nil_r. f_equal.
    rewrite <- (with_socket_same (other s) p) at 1. f_equal.
    destruct (socket (other s) p) as [st sn]. simpl in *. congruence.
  - rewrite fmap_cons.
    rewrite (run_cons _ _ _ _ (deliver_message_open_peer p s d Hst)).
    rewrite IH by (destruct s, p; reflexivity).
    f_equal. destruct s, p; simpl; rewrite <- app_assoc; reflexivity.
Qed.

Lemma relay_preserves_message_order_witness :
  let relaying := {| serverWs := accepted;
                     targetWs := {| readyState := OPEN; sent := [TextData "0"] |} |} in
  run (EvMessage Server <$> [TextData "1"; BinaryData [Byte.x02]; TextData "3"])
      relaying
    = Normal {| serverWs := accepted;
                targetWs := {| readyState := OPEN;
                               sent := [TextData "0"; TextData "1";
                                        BinaryData [Byte.x02]; TextData "3"] |} |}.
Proof.
  intros relaying.
  exact (relay_preserves_message_order relaying Server
           [TextData "1"; BinaryData [Byte.x02]; TextData "3"] eq_refl).
Defined.

(** Once both sockets are closing or closed, no event changes what has
    been sent, and neither socket leaves that condition. *)
Lemma deliver_torn_down ev p :
  closing_or_closed (serverWs p) ->
  closing_or_closed (targetWs p) ->
  exists p',
    deliver ev p = Normal p' /\
    closing_or_closed (serverWs p') /\
    closing_or_closed (targetWs p') /\
    sent (serverWs p') = sent (serverWs p) /\
    sent (targetWs p') = sent (targetWs p).
Proof.
  unfold closing_or_closed.
  destruct p as [[sst ssn] [tst tsn]]; simpl.
  intros Hs Ht.
  destruct ev as [[]|[] data|[]|[]]; simpl;
    unfold server_on_message, target_on_message, server_on_close,
      target_on_close, server_on_error, target_on_error, mark_open, mark_closed;
    simpl.
  all: destruct Hs as [-> | ->], Ht as [-> | ->]; simpl.
  all: eexists; split; [reflexivity|]; simpl; auto.
Qed.

Lemma run_torn_down evs p :
  closing_or_closed (serverWs p) ->
  closing_or_closed (targetWs p) ->
  exists p',
    run evs p = Normal p' /\
    closing_or_closed (serverWs p') /\
    closing_or_closed (targetWs p') /\
    sent (serverWs p') = sent (serverWs p) /\
    sent (targetWs p') = sent (targetWs p).
Proof.
  revert p. induction evs as [|ev evs IH]; intros p Hs Ht.
  - exists p. simpl. auto.
  - destruct (deliver_torn_down ev p Hs Ht) as (p1 & Hd & Hs1 & Ht1 & Hss & Hts).
    destruct (IH p1 Hs1 Ht1) as (p' & Hr & Hs' & Ht' & Hss' & Hts').
    exists p'. rewrite (run_cons _ _ _ _ Hd).
    repeat split; try assumption; congruence.
Qed.

(** X10: a close event is final when the peer is past connecting: the
    closed side is [CLOSED], the peer is closing or closed, and whatever
    events follow (messages, errors, further closes, a late open), no
    frame is forwarded any more and neither socket is open again. *)
Theorem close_ends_the_session p s evs :
  readyState (socket (other s) p) <> CONNECTING ->
  exists p',
    run (EvClose s :: evs) p = Normal p' /\
    closing_or_closed (serverWs p') /\
    closing_or_closed (targetWs p') /\
    sent (serverWs p') = sent (serverWs p) /\
    sent (targetWs p') = sent (targetWs p).
Proof.
  intros Hst.
  assert (exists p1, deliver (EvClose s) p = Normal p1 /\
            closing_or_closed (serverWs p1) /\ closing_or_closed (targetWs p1) /\
            sent (serverWs p1) = sent (serverWs p) /\
            sent (targetWs p1) = sent (targetWs p)) as (p1 & Hd & Hs1 & Ht1 & Hss & Hts).
  { unfold closing_or_closed.
    destruct p as [[sst ssn] [tst tsn]], s; simpl in *;
      unfold server_on_close, target_on_close, mark_closed, WebSocket_close; simpl.
    - destruct tst; try congruence; simpl; eexists; (split; [reflexivity|]);
        simpl; auto.
    - destruct sst; try congruence; simpl; eexists; (split; [reflexivity|]);
        simpl; auto. }
  destruct (run_torn_down evs p1 Hs1 Ht1) as (p' & Hr & Hs' & Ht' & Hss' & Hts').
  exists p'. rewrite (run_cons _ _ _ _ Hd).
  repeat split; try assumption; congruence.
Qed.

(** A relaying pair: the caller closes, then the target goes on talking
    and reports an error. *)
Lemma close_ends_the_session_witness :
  let relaying := {| serverWs := {| readyState := OPEN; sent := [TextData "pong"] |};
                     targetWs := {| readyState := OPEN; sent := [TextData "ping"] |} |} in
  run [EvClose Server; EvMessage Target (TextData "more"); EvError Target;
       EvMessage Server (TextData "late"); EvClose Target] relaying
    = Normal {| serverWs := {| readyState := CLOSED; sent := [TextData "pong"] |};
                targetWs := {| readyState := CLOSED; sent := [TextData "ping"] |} |}
  /\ exists p',
       run [EvClose Server; EvMessage Target (TextData "more")] relaying = Normal p' /\
       closing_or_closed (serverWs p') /\ closing_or_closed (targetWs p') /\
       sent (serverWs p') = [TextData "pong"] /\
       sent (targetWs p') = [TextData "ping"].
Proof.
  intros relaying. split; [reflexivity|].
  exact (close_ends_the_session relaying Server
           [EvMessage Target (TextData "more")] ltac:(discriminate)).
Defined.

(** X11: the close and error listeners act on an open peer only.  When
    one side closes or fails while the other is still connecting, the
    other is left connecting, and when it then opens the pair is
    half-open: that side open, and, after a close, the first side
    [CLOSED]. *)
Theorem close_while_peer_connecting_leaves_it_unclosed p s ev :
  readyState (socket (other s) p) = CONNECTING ->
  ev = EvClose s \/ ev = EvError s ->
  exists p1 p2,
    deliver ev p = Normal p1 /\
    socket (other s) p1 = socket (other s) p /\
    run [ev; EvOpen (other s)] p = Normal p2 /\
    readyState (socket (other s) p2) = OPEN /\
    (ev = EvClose s -> readyState (socket s p2) = CLOSED).
Proof.
  intros Hst [-> | ->]; destruct p as [[sst ssn] [tst tsn]], s; simpl in *; subst;
    unfold server_on_close, target_on_close, server_on_error, target_on_error,
      mark_closed; simpl;
    eexists _, _; (split; [reflexivity|]); (split; [reflexivity|]);
    (split; [reflexivity|]); (split; [reflexivity|]);
    first [ intros _; reflexivity | discriminate ].
Qed.

Lemma close_while_peer_connecting_leaves_it_unclosed_witness :
  let wired := {| serverWs := accepted;
                  targetWs := {| readyState := CONNECTING; sent := [] |} |} in
  exists p1 p2,
    deliver (EvClose Server) wired = Normal p1 /\
    socket (other Server) p1 = socket (other Server) wired /\
    run [EvClose Server; EvOpen (other Server)] wired = Normal p2 /\
    readyState (socket (other Server) p2) = OPEN /\
    (EvClose Server = EvClose Server -> readyState (socket Server p2) = CLOSED).
Proof.
  intros wired.
  exact (close_while_peer_connecting_leaves_it_unclosed wired Server
           (EvClose Server) eq_refl (or_introl eq_refl)).
Defined.

(** ** More on the header policy *)

(** X12: the outbound request reuses the inbound method and body, follows
    redirects, and differs from the inbound header set only in Host,
    Origin and the removal list: every other header passes through with
    its value.  Host is set after the removal list is applied, so it is
    present whatever that list names. *)
Theorem outbound_request_passes_the_rest_through
    new_URL global_fetch now_iso cfg request url out :
  out ∈ (handleHTTP new_URL global_fetch now_iso cfg request url).2 ->
  req_method out = req_method request /\
  req_body out = req_body request /\
  req_redirect out = "follow" /\
  (exists target, req_url out = URL_toString target /\
                  Headers_get (req_headers out) "Host" = Some (host target)) /\
  Headers_has (req_headers out) "Origin" = false /\
  (forall name,
     toLowerCase name <> "host" ->
     toLowerCase name <> "origin" ->
     toLowerCase name ∉ toLowerCase <$> REMOVE_HEADERS cfg ->
     Headers_get (req_headers out) name = Headers_get (req_headers request) name).
Proof.
  intros Hin.
  destruct (handleHTTP_outbound _ _ _ _ _ _ _ Hin) as (t & target & _ & _ & ->).
  cbn [req_method req_body req_redirect req_url req_headers].
  split; [reflexivity|]. split; [reflexivity|]. split; [reflexivity|].
  split; [|split].
  - exists target. split; [reflexivity|].
    unfold Headers_get. rewrite outboundHeaders_lookup. reflexivity.
  - apply Headers_has_get. unfold Headers_get.
    rewrite outboundHeaders_lookup. reflexivity.
  - intros name Hh Ho Hr. unfold Headers_get. rewrite outboundHeaders_lookup.
    rewrite !decide_False by assumption. reflexivity.
Qed.

Lemma outbound_request_passes_the_rest_through_witness :
  let request := {| req_method := "POST";
                    req_url := "https://worker.example/?target=https://example.test/data";
                    req_headers := Headers_of_entries
                      [("Authorization", "Bearer abc"); ("CF-Ray", "abc123")];
                    req_body := BodyStream [Byte.x7b; Byte.x7d];
                    req_redirect := "manual" |} in
  let url := Sample.worker_url "/" "?target=https://example.test/data"
               [("target", "https://example.test/data")] in
  exists out,
    (handleHTTP Sample.new_URL Sample.quick_fetch Sample.now_iso CONFIG request url).2
      = [out] /\
    req_method out = "POST" /\
    req_body out = BodyStream [Byte.x7b; Byte.x7d] /\
    req_redirect out = "follow" /\
    Headers_get (req_headers out) "Authorization" = Some "Bearer abc".
Proof.
  intros request url.
  exists (modified_request CONFIG request Sample.target).
  assert (Hin : modified_request CONFIG request Sample.target
                ∈ (handleHTTP Sample.new_URL Sample.quick_fetch Sample.now_iso
                     CONFIG request url).2)
    by (apply list_elem_of_singleton; reflexivity).
  destruct (outbound_request_passes_the_rest_through _ _ _ _ _ _ _ Hin)
    as (Hm & Hb & Hr & _ & _ & Hrest).
  split; [reflexivity|]. split; [exact Hm|]. split; [exact Hb|].
  split; [exact Hr|].
  rewrite Hrest; [vm_compute; reflexivity | discriminate | discriminate |
                  names_distinct].
Defined.

(** The relayed header set, read at a key that the policy does not
    touch. *)
Lemma relayedHeaders_lookup_other cfg (h : Headers) k :
  k ∉ toLowerCase <$> REMOVE_HEADERS cfg ->
  k ∉ toLowerCase <$> (SECURITY_HEADERS cfg).*1 ->
  (enabled (CORS cfg) = true -> k ∉ cors_names) ->
  relayedHeaders cfg h !! k = h !! k.
Proof.
  intros Hr Hs Hc. unfold relayedHeaders.
  rewrite lookup_foldl_delete, decide_False by assumption.
  rewrite lookup_foldl_set_other by assumption.
  destruct (enabled (CORS cfg)); [|reflexivity].
  specialize (Hc eq_refl). unfold cors_names in Hc.
  unfold Headers_set. rewrite !lookup_insert_ne; [reflexivity|..];
    intros <-; apply Hc; set_solver.
Qed.



(** At a name that a run of [set] calls writes, the result does not
    depend on the map the run started from. *)
Lemma lookup_foldl_set_base (l : list (string * string)) (h h' : Headers) k :
  k ∈ toLowerCase <$> l.*1 ->
  foldl (fun h kv => Headers_set h kv.1 kv.2) h l !! k
    = foldl (fun h kv => Headers_set h kv.1 kv.2) h' l !! k.
Proof.
  revert h h'. induction l as [|[n v] l IH]; intros h h' Hk.
  - inversion Hk.
  - change (foldl (fun h kv => Headers_set h kv.1 kv.2) (Headers_set h n v) l !! k
            = foldl (fun h kv => Headers_set h kv.1 kv.2) (Headers_set h' n v) l !! k).
    destruct (decide (k ∈ toLowerCase <$> l.*1)) as [Hin|Hnin].
    + apply IH, Hin.
    + rewrite !lookup_foldl_set_other by assumption.
      rewrite fmap_cons, fmap_cons in Hk. apply elem_of_cons in Hk as [->|?];
        [|contradiction].
      unfold Headers_set. simpl. rewrite !lookup_insert_eq. reflexivity.
Qed.

(** At a name the response policy removes or sets, the relayed header set
    does not depend on what the target sent. *)
Lemma relayedHeaders_lookup_base cfg (h h' : Headers) k :
  k ∈ toLowerCase <$> REMOVE_HEADERS cfg \/
  k ∈ toLowerCase <$> (SECURITY_HEADERS cfg).*1 \/
  (enabled (CORS cfg) = true /\ k ∈ cors_names) ->
  relayedHeaders cfg h !! k = relayedHeaders cfg h' !! k.
Proof.
  intros Hk. unfold relayedHeaders. rewrite !lookup_foldl_delete.
  case_decide as Hr; [reflexivity|].
  destruct (decide (k ∈ toLowerCase <$> (SECURITY_HEADERS cfg).*1)) as [Hs|Hs].
  { apply lookup_foldl_set_base, Hs. }
  rewrite !lookup_foldl_set_other by assumption.
  destruct Hk as [?|[?|[Hen Hc]]]; [contradiction|contradiction|].
  rewrite Hen. unfold cors_names in Hc. unfold Headers_set.
  rewrite !fmap_cons in Hc.
  repeat (apply elem_of_cons in Hc as [->|Hc];
          [rewrite ?lookup_insert_eq;
           repeat (rewrite lookup_insert_ne by discriminate;
                   rewrite ?lookup_insert_eq);
           reflexivity|]).
  inversion Hc.
Qed.

(** X14: both header policies are idempotent: relaying an already relayed
    response, or sanitising an already sanitised request for the same
    target, changes nothing (as when one worker relays to another with
    the same configuration). *)
Theorem header_policies_are_idempotent cfg request target (h : Headers) :
  relayedHeaders cfg (relayedHeaders cfg h) = relayedHeaders cfg h /\
  outboundHeaders cfg
      (with_headers request (outboundHeaders cfg request target)) target
    = outboundHeaders cfg request target.
Proof.
  split; apply map_eq; intros k.
  - destruct (decide (k ∈ toLowerCase <$> REMOVE_HEADERS cfg)) as [Hr|Hr].
    { apply relayedHeaders_lookup_base. left; exact Hr. }
    destruct (decide (k ∈ toLowerCase <$> (SECURITY_HEADERS cfg).*1)) as [Hs|Hs].
    { apply relayedHeaders_lookup_base. right; left; exact Hs. }
    destruct (enabled (CORS cfg)) eqn:Hen.
    + destruct (decide (k ∈ cors_names)) as [Hc|Hc].
      { apply relayedHeaders_lookup_base. right; right; split; assumption. }
      apply relayedHeaders_lookup_other; try assumption. intros _; exact Hc.
    + apply relayedHeaders_lookup_other; try assumption.
      rewrite Hen. discriminate.
  - rewrite !outboundHeaders_lookup. cbn [with_headers req_headers].
    rewrite outboundHeaders_lookup.
    repeat case_decide; reflexivity.
Qed.

(** ** The canned replies *)

Lemma foldl_append_is_Some (l : list (string * string)) (h : Headers) k :
  is_Some (h !! k) ->
  is_Some (foldl (fun h kv => Headers_append h kv.1 kv.2) h l !! k).
Proof.
  revert h. induction l as [|[n v] l IH]; intros h Hk; [exact Hk|].
  apply IH. unfold Headers_append. simpl.
  destruct (decide (toLowerCase n = k)) as [<-|Hne].
  - destruct (h !! toLowerCase n); rewrite lookup_insert_eq; eauto.
  - destruct (h !! toLowerCase n); rewrite lookup_insert_ne by assumption;
      exact Hk.
Qed.

(** Both canned replies name their content type, so the constructor adds
    no default: their header set is the one they were built with. *)
Lemma canned_headers cfg j st :
  res_headers
    (new_Response (BodyJson j) st ""
       (Headers_of_entries
          (("Content-Type", "application/json") :: SECURITY_HEADERS cfg)))
  = Headers_of_entries
      (("Content-Type", "application/json") :: SECURITY_HEADERS cfg).
Proof.
  unfold new_Response. cbn [res_headers].
  replace (Headers_has _ "Content-Type") with true; [reflexivity|].
  symmetry. unfold Headers_has. apply bool_decide_eq_true.
  unfold Headers_of_entries. simpl foldl at 1.
  apply foldl_append_is_Some.
  unfold Headers_append. simpl. rewrite lookup_empty, lookup_insert_eq. eauto.
Qed.

Lemma handleError_headers now_iso cfg e :
  res_headers (handleError now_iso cfg e)
  = Headers_of_entries
      (("Content-Type", "application/json") :: SECURITY_HEADERS cfg).
Proof. unfold handleError. apply canned_headers. Qed.

Lemma createInfoResponse_headers cfg :
  res_headers (createInfoResponse cfg)
  = Headers_of_entries
      (("Content-Type", "application/json") :: SECURITY_HEADERS cfg).
Proof. unfold createInfoResponse. apply canned_headers. Qed.

(** X15: the error reply (status 500) and the info reply (status 200, a
    JSON document with a [usage] field) both declare the content type
    application/json and carry every configured security header with
    its value, provided the security headers are distinct names and none
    of them is Content-Type, as in [CONFIG]. *)
Theorem canned_replies_carry_security_headers now_iso cfg e r :
  NoDup (canned_header_names cfg) ->
  r = handleError now_iso cfg e \/ r = createInfoResponse cfg ->
  res_status (handleError now_iso cfg e) = 500 /\
  res_status (createInfoResponse cfg) = 200 /\
  (exists j usage, res_body (createInfoResponse cfg) = BodyJson j /\
                   JSON_field "usage" j = Some usage) /\
  Headers_get (res_headers r) "Content-Type" = Some "application/json" /\
  (forall name value, (name, value) ∈ SECURITY_HEADERS cfg ->
     Headers_get (res_headers r) name = Some value).
Proof.
  intros Hnd Hr.
  assert (Hh : res_headers r = Headers_of_entries
                 (("Content-Type", "application/json") :: SECURITY_HEADERS cfg)).
  { destruct Hr as [-> | ->];
      [apply handleError_headers | apply createInfoResponse_headers]. }
  split; [reflexivity|]. split; [reflexivity|].
  split; [eexists _, _; split; reflexivity|].
  rewrite Hh. split.
  - apply Headers_of_entries_get; [exact Hnd | left].
  - intros name value Hin.
    apply Headers_of_entries_get; [exact Hnd | right; exact Hin].
Qed.

Lemma canned_replies_carry_security_headers_witness :
  let r := handleError Sample.now_iso CONFIG {| message := "boom" |} in
  Headers_get (res_headers r) "Content-Type" = Some "application/json" /\
  Headers_get (res_headers r) "X-Content-Type-Options" = Some "nosniff" /\
  Headers_get (res_headers r) "X-XSS-Protection" = Some "1; mode=block".
Proof.
  intros r.
  destruct (canned_replies_carry_security_headers Sample.now_iso CONFIG
              {| message := "boom" |} r ltac:(names_distinct)
              (or_introl eq_refl)) as (_ & _ & _ & Hct & Hsec).
  split; [exact Hct|].
  split; apply Hsec; set_solver.
Defined.

(** X16: the canned replies carry nothing but Content-Type and the
    security headers.  In particular, unless a security header is given
    that name, the error and info replies have no
    Access-Control-Allow-Origin header, with CORS enabled or not: the
    CORS headers are set on relayed responses and preflight replies
    only. *)
Theorem canned_replies_carry_nothing_else now_iso cfg e name :
  toLowerCase name ∉ canned_header_names cfg ->
  Headers_has (res_headers (handleError now_iso cfg e)) name = false /\
  Headers_has (res_headers (createInfoResponse cfg)) name = false.
Proof.
  intros Hname.
  rewrite handleError_headers, createInfoResponse_headers.
  assert (Headers_has
            (Headers_of_entries
               (("Content-Type", "application/json") :: SECURITY_HEADERS cfg))
            name = false) as ->; [|split; reflexivity].
  apply Headers_has_get. unfold Headers_get, Headers_of_entries.
  rewrite lookup_foldl_append_other by exact Hname. apply lookup_empty.
Qed.

(** A request whose outbound call is refused, under [CONFIG] (CORS
    enabled): the reply has no CORS header. *)
Lemma canned_replies_carry_nothing_else_witness :
  let request := Sample.get_request
      "https://worker.example/?target=https://example.test/data" [] in
  enabled (CORS CONFIG) = true /\
  reply (fetch Sample.new_URL Sample.refused_fetch Sample.dial_ok Sample.now_iso
           CONFIG request)
    = Fulfilled 15 (handleError Sample.now_iso CONFIG
                      {| message := "Network connection lost." |}) /\
  Headers_has (res_headers (handleError Sample.now_iso CONFIG
                              {| message := "Network connection lost." |}))
    "Access-Control-Allow-Origin" = false /\
  Headers_has (res_headers (createInfoResponse CONFIG))
    "Access-Control-Allow-Origin" = false.
Proof.
  intros request. split; [reflexivity|]. split; [vm_compute; reflexivity|].
  exact (canned_replies_carry_nothing_else Sample.now_iso CONFIG
           {| message := "Network connection lost." |}
           "Access-Control-Allow-Origin" ltac:(names_distinct)).
Defined.

(** X17: the error reply always has status 500 and a JSON body with
    [error: true], the time of the reply, and a message that is never
    empty: the message of the error when it has one, and the fixed text
    "Internal server error" otherwise. *)
Theorem error_body_reports_the_message now_iso cfg e :
  res_status (handleError now_iso cfg e) = 500 /\
  exists m,
    res_body (handleError now_iso cfg e)
      = BodyJson (JObj [("error", JBool true); ("message", JStr m);
                        ("timestamp", JStr now_iso)]) /\
    m <> "" /\
    (message e <> "" -> m = message e) /\
    (message e = "" -> m = "Internal server error").
Proof.
  split; [reflexivity|].
  unfold handleError, new_Response. cbn [res_body].
  destruct (String.eqb_spec (message e) "") as [Hm|Hm].
  - exists "Internal server error". split; [reflexivity|].
    split; [discriminate|]. split; [contradiction | reflexivity].
  - exists (message e). split; [reflexivity|].
    split; [exact Hm|]. split; [reflexivity | contradiction].
Qed.

(** ** The session left half open *)

(** C1 at a caller that hangs up while the outbound socket is still
    connecting.  [connectWebSocket] leaves the server end open and the
    target end connecting; the close listener of the server end finds the
    target not open and closes nothing; the target then opens, and the
    pair is half open: server end [CLOSED], target end [OPEN].  Whatever
    the target sends from then on is dropped and the pair stays as it
    is. *)
Theorem half_open_after_close_while_connecting :
  let wired := {| serverWs := accepted;
                  targetWs := {| readyState := CONNECTING; sent := [] |} |} in
  let half_open := {| serverWs := {| readyState := CLOSED; sent := [] |};
                      targetWs := {| readyState := OPEN; sent := [] |} |} in
  connectWebSocket Sample.dial_ok accepted "wss://echo.example/socket"
    = Wired wired /\
  deliver (EvClose Server) wired
    = Normal {| serverWs := {| readyState := CLOSED; sent := [] |};
                targetWs := {| readyState := CONNECTING; sent := [] |} |} /\
  run [EvClose Server; EvOpen Target] wired = Normal half_open /\
  (forall datas : list Payload,
     run ([EvClose Server; EvOpen Target] ++ (EvMessage Target <$> datas)) wired
       = Normal half_open).
Proof.
  intros wired half_open.
  split; [reflexivity|]. split; [reflexivity|].
  assert (Hrun : run [EvClose Server; EvOpen Target] wired = Normal half_open)
    by reflexivity.
  split; [exact Hrun|].
  intros datas. rewrite (run_app _ _ _ _ Hrun).
  apply run_messages_closed_peer. discriminate.
Qed.

(** ** Settling and the path form *)



(** X20: the path test is a prefix test on the four characters [http].
    A stripped path that passes it is the target, whatever follows those
    characters: the query string of the request is not appended, a
    configured default target is not consulted, and when the path does
    not parse as a URL the reply is the error reply, with no outbound
    call. *)
Theorem path_beginning_with_http_is_the_target
    new_URL global_fetch now_iso cfg request url :
  truthy (URLSearchParams_get (searchParams url) "target") = false ->
  startsWith (substring1 (pathname url)) "http" = true ->
  resolveTarget cfg url = Some (substring1 (pathname url)) /\
  (forall e,
     new_URL (substring1 (pathname url)) = Throw e ->
     handleHTTP new_URL global_fetch now_iso cfg request url
       = (Fulfilled 0 (handleError now_iso cfg e), [])).
Proof.
  intros Hq Hp.
  assert (Hr : resolveTarget cfg url = Some (substring1 (pathname url)))
    by (apply resolveTarget_path; assumption).
  split; [exact Hr|].
  intros e He. unfold handleHTTP. rewrite Hr, He. reflexivity.
Qed.

(** [/httpbin.org/get?x=1] under a configuration with a default target. *)
Lemma path_beginning_with_http_is_the_target_witness :
  let url := Sample.worker_url "/httpbin.org/get" "?x=1" [("x", "1")] in
  let request := Sample.get_request "https://worker.example/httpbin.org/get?x=1" [] in
  let with_default := mkConfig (Some "https://example.test") false 0 0
                        (CORS CONFIG) [] [] in
  begins_with_scheme_literal (substring1 (pathname url)) = false /\
  resolveTarget with_default url = Some "httpbin.org/get" /\
  handleHTTP Sample.new_URL Sample.quick_fetch Sample.now_iso with_default
      request url
    = (Fulfilled 0 (handleError Sample.now_iso with_default
                      {| message := "Invalid URL: httpbin.org/get" |}), []).
Proof.
  intros url request with_default.
  destruct (path_beginning_with_http_is_the_target Sample.new_URL
              Sample.quick_fetch Sample.now_iso with_default request url
              eq_refl eq_refl) as (Hr & He).
  split; [reflexivity|]. split; [exact Hr|].
  apply He. reflexivity.
Defined.
